(** * Common Object Management Service: catalog, metadata reconciliation,
      validation, storage adapter and user synchronisation.

    A shallow embedding of the service functions of
    [app/src/services/metadata.js] and of the [searchPermissions] validator,
    together with the storage and user services as far as their unit tests
    and the specification describe them. *)

From Stdlib Require Import ZArith NArith Lia.
From stdpp Require Import base tactics option list strings pretty gmap sorting.

(** ** Identifiers

    A uuid is a 128-bit value; its canonical text form is a bijective
    rendering of that value, so equality (JavaScript [===] on the canonical
    strings) and the database's uuid ordering are those of the number. *)
Definition uuid := N.

(** The nil uuid, [NIL] of the uuid package, used as [SYSTEM_USER]. *)
Definition SYSTEM_USER : uuid := 0%N.

(** ** Relational rows *)

Module Metadata.
(** [metadata(id, key, value)]; [id] is an integer identity column. *)
Record row := Row { id : Z; key : string; value : string }.
#[global] Instance row_eq_dec : EqDecision row.
Proof. solve_decision. Defined.
End Metadata.

Module VersionMetadata.
(** [version_metadata(versionId, metadataId, createdBy)]. *)
Record row := Row { versionId : uuid; metadataId : Z; createdBy : uuid }.
#[global] Instance row_eq_dec : EqDecision row.
Proof. solve_decision. Defined.
End VersionMetadata.

Module Version.
(** [version(id, objectId, s3VersionId, mimeType, deleteMarker, createdAt, createdBy)];
    [createdAt] is a timestamp, kept as a number of microseconds. *)
Record row := Row {
  id : uuid;
  objectId : uuid;
  s3VersionId : option string;
  mimeType : string;
  deleteMarker : bool;
  createdAt : Z;
  createdBy : uuid
}.
#[global] Instance row_eq_dec : EqDecision row.
Proof. solve_decision. Defined.
End Version.

Module ObjectModel.
(** [object(id, bucketId, path, public, active)]. *)
Record row := Row {
  id : uuid;
  bucketId : option uuid;
  path : string;
  public : bool;
  active : bool
}.
#[global] Instance row_eq_dec : EqDecision row.
Proof. solve_decision. Defined.
End ObjectModel.

(** An incoming metadata item [{ key, value }]. *)
Definition KeyValue : Type := string * string.

(** ** The database

    The tables the services touch, each a list of rows in storage order, and
    the sequence behind [metadata.id]. *)
Record Tables := MkTables {
  object : list ObjectModel.row;
  version : list Version.row;
  metadata : list Metadata.row;
  version_metadata : list VersionMetadata.row;
  metadata_id_seq : Z
}.

Definition set_metadata (f : list Metadata.row → list Metadata.row) (tb : Tables) : Tables :=
  MkTables (object tb) (version tb) (f (metadata tb)) (version_metadata tb) (metadata_id_seq tb).

Definition set_version_metadata
    (f : list VersionMetadata.row → list VersionMetadata.row) (tb : Tables) : Tables :=
  MkTables (object tb) (version tb) (metadata tb) (f (version_metadata tb)) (metadata_id_seq tb).

Definition set_metadata_id_seq (n : Z) (tb : Tables) : Tables :=
  MkTables (object tb) (version tb) (metadata tb) (version_metadata tb) n.

(** *** Statements

    The SQL statements the metadata service issues through Objection, named
    by table and verb, with the arguments the service passes. *)
Inductive Stmt :=
| SelectMetadata
| InsertMetadata (rows : list KeyValue)
| SelectOrphanedMetadata
| DeleteMetadata (ids : list Z)
| SelectVersionMetadata (v : uuid)
| DeleteVersionMetadata (ids : list Z) (v : uuid)
| InsertVersionMetadata (rows : list VersionMetadata.row).

(** [Metadata.query(trx).select()] *)
Definition sql_select_metadata (tb : Tables) : list Metadata.row * Tables :=
  (metadata tb, tb).

(** Rows get consecutive ids from the identity sequence. *)
Fixpoint number_rows (next : Z) (kvs : list KeyValue) : list Metadata.row :=
  match kvs with
  | [] => []
  | (k, v) :: rest => Metadata.Row next k v :: number_rows (next + 1) rest
  end.

(** [Metadata.query(trx).insert(newMetadata).returning('*')] *)
Definition sql_insert_metadata (kvs : list KeyValue) (tb : Tables)
    : list Metadata.row * Tables :=
  let rows := number_rows (metadata_id_seq tb) kvs in
  (rows,
   set_metadata_id_seq (metadata_id_seq tb + Z.of_nat (length kvs))
     (set_metadata (λ ms, ms ++ rows) tb)).

(** A metadata row is referenced when some join row carries its id. *)
Definition referenced (vms : list VersionMetadata.row) (m : Metadata.row) : Prop :=
  Metadata.id m ∈ VersionMetadata.metadataId <$> vms.

#[global] Instance referenced_dec vms m : Decision (referenced vms m).
Proof. unfold referenced. apply _. Defined.

(** [Metadata.query(trx).withGraphJoined('versionMetadata').select('metadata.id')
      .whereNull('versionMetadata.metadataId')]:
    the left join keeps a metadata row with a null join side exactly when no
    join row references it. *)
Definition sql_select_orphaned_metadata (tb : Tables) : list Z * Tables :=
  (Metadata.id <$> filter (λ m, ¬ referenced (version_metadata tb) m) (metadata tb), tb).

(** [Metadata.query(trx).delete().whereIn('id', ids)]; the result is the
    number of rows deleted. *)
Definition sql_delete_metadata (ids : list Z) (tb : Tables) : nat * Tables :=
  (length (filter (λ m, Metadata.id m ∈ ids) (metadata tb)),
   set_metadata (filter (λ m, Metadata.id m ∉ ids)) tb).

(** Modelled from the spec: the [filterVersionId] modifier of the
    VersionMetadata model is not among the sources; "load the current join
    set C = VersionMetadata rows for versionId". *)
Definition filterVersionId (v : uuid) (vms : list VersionMetadata.row)
    : list VersionMetadata.row :=
  filter (λ vm, VersionMetadata.versionId vm = v) vms.

(** [VersionMetadata.query(trx).modify('filterVersionId', versionId)] *)
Definition sql_select_version_metadata (v : uuid) (tb : Tables)
    : list VersionMetadata.row * Tables :=
  (filterVersionId v (version_metadata tb), tb).

(** [VersionMetadata.query(trx).whereIn('metadataId', ids)
      .modify('filterVersionId', versionId).delete()] *)
Definition sql_delete_version_metadata (ids : list Z) (v : uuid) (tb : Tables)
    : nat * Tables :=
  let doomed vm :=
    VersionMetadata.metadataId vm ∈ ids ∧ VersionMetadata.versionId vm = v in
  (length (filter doomed (version_metadata tb)),
   set_version_metadata (filter (λ vm, ¬ doomed vm)) tb).

(** [VersionMetadata.query(trx).insert(rows)] answers the inserted rows. *)
Definition sql_insert_version_metadata (rows : list VersionMetadata.row) (tb : Tables)
    : list VersionMetadata.row * Tables :=
  (rows, set_version_metadata (λ vms, vms ++ rows) tb).

(** *** Transactions

    A transaction handle is the index of its entry in the list of
    transactions ever started.  A transaction works on its own copy of the
    tables; committing publishes the copy, rolling back discards it. *)
Inductive TrxStatus := Open | Committed | RolledBack.

#[global] Instance TrxStatus_eq_dec : EqDecision TrxStatus.
Proof. solve_decision. Defined.

Record Trx := MkTrx { status : TrxStatus; work : Tables }.

Inductive DbCall :=
| StartTransaction
| Commit (t : nat)
| Rollback (t : nat)
| Query (t : nat) (s : Stmt).

Inductive Error :=
| DbError (c : DbCall)           (* the database rejected the call *)
| TransactionClosed (c : DbCall) (* the handle is not an open transaction *)
| TypeError (msg : string)       (* a JavaScript runtime type error *)
| StorageError (op : string)     (* the object store rejected a command *)
| NotFoundError.                 (* [throwIfNotFound] found nothing *)

Inductive Result (A : Type) :=
| Ok (a : A)
| Err (e : Error).
Arguments Ok {A} a.
Arguments Err {A} e.

(** The world: the committed tables, the transactions, and the calls the
    database client has received, oldest first. *)
Record World := MkWorld {
  durable : Tables;
  trxs : list Trx;
  calls : list DbCall
}.

(** A computation may read and change the world and either returns a value
    or throws. *)
Definition M (A : Type) : Type := World → Result A * World.

#[global] Instance M_ret : MRet M := λ A a w, (Ok a, w).

Definition throw {A} (e : Error) : M A := λ w, (Err e, w).

#[global] Instance M_bind : MBind M := λ A B k m w,
  match m w with
  | (Ok a, w') => k a w'
  | (Err e, w') => (Err e, w')
  end.

(** [try { m } catch (err) { h err }] *)
Definition try_catch {A} (m : M A) (h : Error → M A) : M A := λ w,
  match m w with
  | (Ok a, w') => (Ok a, w')
  | (Err e, w') => h e w'
  end.

Definition record_call (c : DbCall) (w : World) : World :=
  MkWorld (durable w) (trxs w) (calls w ++ [c]).

Definition set_trx (t : nat) (x : Trx) (w : World) : World :=
  MkWorld (durable w) (<[t := x]> (trxs w)) (calls w).

(** The working tables of an open transaction. *)
Definition open_work (t : nat) (w : World) : option Tables :=
  match trxs w !! t with
  | Some (MkTrx Open tb) => Some tb
  | _ => None
  end.

Section Database.

(** Which calls the database rejects, given the state it is in: constraint
    violations, lost connections and the like.  Everything below holds for
    every such policy. *)
Variable fault : DbCall → World → bool.

(** [Model.startTransaction()] *)
Definition startTransaction : M nat := λ w,
  let w1 := record_call StartTransaction w in
  if fault StartTransaction w then (Err (DbError StartTransaction), w1)
  else (Ok (length (trxs w)),
        MkWorld (durable w1) (trxs w1 ++ [MkTrx Open (durable w)]) (calls w1)).

(** [trx.commit()] *)
Definition commit (t : nat) : M unit := λ w,
  let w1 := record_call (Commit t) w in
  match open_work t w with
  | Some tb =>
      if fault (Commit t) w then (Err (DbError (Commit t)), w1)
      else (Ok (), MkWorld tb (<[t := MkTrx Committed tb]> (trxs w1)) (calls w1))
  | None => (Err (TransactionClosed (Commit t)), w1)
  end.

(** [trx.rollback()] *)
Definition rollback (t : nat) : M unit := λ w,
  let w1 := record_call (Rollback t) w in
  match open_work t w with
  | Some tb =>
      if fault (Rollback t) w then (Err (DbError (Rollback t)), w1)
      else (Ok (), set_trx t (MkTrx RolledBack tb) w1)
  | None => (Err (TransactionClosed (Rollback t)), w1)
  end.

(** [Model.query(trx)...]: one statement run inside transaction [t]. *)
Definition query {A} (t : nat) (s : Stmt) (f : Tables → A * Tables) : M A := λ w,
  let w1 := record_call (Query t s) w in
  match open_work t w with
  | Some tb =>
      if fault (Query t s) w then (Err (DbError (Query t s)), w1)
      else (Ok (f tb).1, set_trx t (MkTrx Open (f tb).2) w1)
  | None => (Err (TransactionClosed (Query t s)), w1)
  end.

(** The transaction idiom every service function shares:
<<
    let trx;
    try {
      trx = etrx ? etrx : await Model.startTransaction();
      ... body ...
      if (!etrx) await trx.commit();
      return Promise.resolve(response);
    } catch (err) {
      if (!etrx && trx) await trx.rollback();
      throw err;
    }
>>
    When [startTransaction] throws, [trx] is still undefined and the
    handler only rethrows. *)
Definition withTransaction {A} (etrx : option nat) (body : nat → M A) : M A :=
  match etrx with
  | Some t => body t
  | None =>
      trx ← startTransaction;
      try_catch
        (response ← body trx; commit trx;; mret response)
        (λ err, rollback trx;; throw err)
  end.

(** ** The metadata service ([app/src/services/metadata.js]) *)

(** Modelled from the spec: [getObjectsByKeyValue] of [components/utils]
    is not among the sources; a metadata row is found "by exact key+value
    match", the first one in the array, [undefined] when there is none. *)
Definition getObjectsByKeyValue (array : list Metadata.row) (key value : string)
    : option Metadata.row :=
  List.find
    (λ obj, bool_decide (Metadata.key obj = key ∧ Metadata.value obj = value))
    array.

(** The [metadata.forEach] of [createMetadata]: every item goes, in order,
    either to [existingMetadata] (with the id of the row found) or to
    [newMetadata]. *)
Fixpoint sortMetadata (allMetadata : list Metadata.row) (metadata : list KeyValue)
    : list Metadata.row * list KeyValue :=
  match metadata with
  | [] => ([], [])
  | (key, value) :: rest =>
      let '(existingMetadata, newMetadata) := sortMetadata allMetadata rest in
      match getObjectsByKeyValue allMetadata key value with
      | Some found =>
          (Metadata.Row (Metadata.id found) key value :: existingMetadata, newMetadata)
      | None => (existingMetadata, (key, value) :: newMetadata)
      end
  end.

(** [createMetadata(metadata, etrx)] *)
Definition createMetadata (metadata : list KeyValue) (etrx : option nat)
    : M (list Metadata.row) :=
  withTransaction etrx (λ trx,
    allMetadata ← query trx SelectMetadata sql_select_metadata;
    let '(existingMetadata, newMetadata) := sortMetadata allMetadata metadata in
    if decide (newMetadata ≠ []) then
      newMetadataRecords ←
        query trx (InsertMetadata newMetadata) (sql_insert_metadata newMetadata);
      mret (existingMetadata ++ newMetadataRecords)
    else mret existingMetadata).

(** [pruneOrphanedMetadata(etrx)] *)
Definition pruneOrphanedMetadata (etrx : option nat) : M nat :=
  withTransaction etrx (λ trx,
    deletedMetadataIds ← query trx SelectOrphanedMetadata sql_select_orphaned_metadata;
    query trx (DeleteMetadata deletedMetadataIds) (sql_delete_metadata deletedMetadataIds)).

(** [associatedMetadata.filter(({ metadataId }) =>
      !dbMetadata.some(({ id }) => id === metadataId))] *)
Definition dissociateMetadata (dbMetadata : list Metadata.row)
    (associatedMetadata : list VersionMetadata.row) : list VersionMetadata.row :=
  filter (λ vm, VersionMetadata.metadataId vm ∉ Metadata.id <$> dbMetadata)
    associatedMetadata.

(** [associatedMetadata.length ? dbMetadata.filter(({ id }) =>
      !associatedMetadata.some(({ metadataId }) => metadataId === id)) : dbMetadata] *)
Definition newJoins (dbMetadata : list Metadata.row)
    (associatedMetadata : list VersionMetadata.row) : list Metadata.row :=
  if decide (associatedMetadata ≠ []) then
    filter (λ m, Metadata.id m ∉ VersionMetadata.metadataId <$> associatedMetadata)
      dbMetadata
  else dbMetadata.

(** [associateMetadata(versionId, metadata, currentUserId = SYSTEM_USER, etrx)];
    [metadata] may be absent, and [metadata && metadata.length] holds for a
    non-empty array only. *)
Definition associateMetadata (versionId : uuid) (metadata : option (list KeyValue))
    (currentUserId : option uuid) (etrx : option nat) : M (list VersionMetadata.row) :=
  let currentUserId := default SYSTEM_USER currentUserId in
  withTransaction etrx (λ trx,
    match metadata with
    | Some ((_ :: _) as metadata) =>
        dbMetadata ← createMetadata metadata (Some trx);
        associatedMetadata ←
          query trx (SelectVersionMetadata versionId)
            (sql_select_version_metadata versionId);
        (if decide (associatedMetadata ≠ []) then
           let dissociate := dissociateMetadata dbMetadata associatedMetadata in
           if decide (dissociate ≠ []) then
             let ids := VersionMetadata.metadataId <$> dissociate in
             query trx (DeleteVersionMetadata ids versionId)
               (sql_delete_version_metadata ids versionId);;
             pruneOrphanedMetadata (Some trx);;
             mret ()
           else mret ()
         else mret ());;
        let joins := newJoins dbMetadata associatedMetadata in
        if decide (joins ≠ []) then
          let rows :=
            (λ m, VersionMetadata.Row versionId (Metadata.id m) currentUserId) <$> joins in
          query trx (InsertVersionMetadata rows) (sql_insert_version_metadata rows)
        else mret []
    | _ => mret []
    end).

End Database.

(** ** What the service bodies do to the tables of their transaction

    The same steps as above, on the working tables alone.  [in_trx] below
    ties each service body to its table function. *)

Definition tb_createMetadata (incoming : list KeyValue) (tb : Tables)
    : list Metadata.row * Tables :=
  let '(existingMetadata, newMetadata) := sortMetadata (metadata tb) incoming in
  if decide (newMetadata ≠ []) then
    (existingMetadata ++ (sql_insert_metadata newMetadata tb).1,
     (sql_insert_metadata newMetadata tb).2)
  else (existingMetadata, tb).

Definition tb_pruneOrphanedMetadata (tb : Tables) : nat * Tables :=
  sql_delete_metadata (sql_select_orphaned_metadata tb).1 tb.

Definition tb_dissociate (versionId : uuid) (dbMetadata : list Metadata.row)
    (tb : Tables) : Tables :=
  let associatedMetadata := filterVersionId versionId (version_metadata tb) in
  let dissociate := dissociateMetadata dbMetadata associatedMetadata in
  if decide (associatedMetadata ≠ []) then
    if decide (dissociate ≠ []) then
      (tb_pruneOrphanedMetadata
         (sql_delete_version_metadata
            (VersionMetadata.metadataId <$> dissociate) versionId tb).2).2
    else tb
  else tb.

Definition tb_join (versionId currentUserId : uuid) (joins : list Metadata.row)
    (tb : Tables) : list VersionMetadata.row * Tables :=
  if decide (joins ≠ []) then
    sql_insert_version_metadata
      ((λ m, VersionMetadata.Row versionId (Metadata.id m) currentUserId) <$> joins) tb
  else ([], tb).

Definition tb_associateMetadata (versionId : uuid) (incoming : option (list KeyValue))
    (currentUserId : option uuid) (tb : Tables) : list VersionMetadata.row * Tables :=
  match incoming with
  | Some ((_ :: _) as incoming) =>
      let dbMetadata := (tb_createMetadata incoming tb).1 in
      let tb1 := (tb_createMetadata incoming tb).2 in
      let associatedMetadata := filterVersionId versionId (version_metadata tb1) in
      tb_join versionId (default SYSTEM_USER currentUserId)
        (newJoins dbMetadata associatedMetadata)
        (tb_dissociate versionId dbMetadata tb1)
  | _ => ([], tb)
  end.

(** The metadata ids joined to a version. *)
Definition joinedMetadataIds (versionId : uuid) (tb : Tables) : gset Z :=
  list_to_set (VersionMetadata.metadataId <$> filterVersionId versionId (version_metadata tb)).

(** What a call that only queries inside transaction [t] may change: the
    committed tables stay, the client sees queries on [t] only, and of the
    transactions at most the working tables of [t] move. *)
Definition touched (t : nat) (w w' : World) : Prop :=
  durable w' = durable w ∧
  (∃ qs, calls w' = calls w ++ (Query t <$> qs)) ∧
  (trxs w' = trxs w ∨
   ∃ tb x, open_work t w = Some tb ∧ trxs w' = <[t := MkTrx Open x]> (trxs w)).

Definition in_trx {A} (t : nat) (m : M A) (g : Tables → A * Tables) : Prop :=
  ∀ w, touched t w (m w).2 ∧
       ∀ a tb, (m w).1 = Ok a → open_work t w = Some tb →
               a = (g tb).1 ∧ open_work t (m w).2 = Some (g tb).2.

(** The tables a call works on: those of the caller's transaction when one
    is passed, the committed ones otherwise. *)
Definition target (etrx : option nat) (w : World) : option Tables :=
  match etrx with
  | Some t => open_work t w
  | None => Some (durable w)
  end.

(** How a call that opened its own transaction [t] may fail: either the
    transaction could not be started, or a rollback of [t] was the last
    thing asked of the database, after queries on [t] and possibly a
    rejected commit. *)
Definition failed_alone (t : nat) (e : Error) (w w' : World) : Prop :=
  (calls w' = calls w ++ [StartTransaction] ∧ trxs w' = trxs w)
  ∨ ∃ qs tb,
      (calls w' = calls w ++ StartTransaction :: (Query t <$> qs) ++ [Rollback t]
       ∨ calls w' =
           calls w ++ StartTransaction :: (Query t <$> qs) ++ [Commit t; Rollback t])
      ∧ (trxs w' = trxs w ++ [MkTrx RolledBack tb]
         ∨ e = DbError (Rollback t) ∧ trxs w' = trxs w ++ [MkTrx Open tb]).

(** A database that rejects nothing. *)
Definition no_fault : DbCall → World → bool := λ _ _, false.

(** ** Calls into the metadata service, as one type

    The three functions that take an optional transaction, and what a call
    leaves behind: the error it threw, if any, and the world. *)
Inductive ServiceCall :=
| CallAssociateMetadata
    (versionId : uuid) (incoming : option (list KeyValue)) (currentUserId : option uuid)
| CallCreateMetadata (incoming : list KeyValue)
| CallPruneOrphanedMetadata.

Definition thrown {A} (r : Result A) : option Error :=
  match r with
  | Ok _ => None
  | Err e => Some e
  end.

Definition perform (fault : DbCall → World → bool) (c : ServiceCall)
    (etrx : option nat) (w : World) : option Error * World :=
  match c with
  | CallAssociateMetadata versionId incoming currentUserId =>
      let x := associateMetadata fault versionId incoming currentUserId etrx w in
      (thrown x.1, x.2)
  | CallCreateMetadata incoming =>
      let x := createMetadata fault incoming etrx w in (thrown x.1, x.2)
  | CallPruneOrphanedMetadata =>
      let x := pruneOrphanedMetadata fault etrx w in (thrown x.1, x.2)
  end.

(** ** A small catalogue to run the service on

    Two metadata rows; version 7 is joined to the first, version 8 to both. *)
Definition example_tables : Tables :=
  MkTables [] []
    [Metadata.Row 1 "a" "1"; Metadata.Row 2 "b" "2"]
    [VersionMetadata.Row 7%N 1 0%N;
     VersionMetadata.Row 8%N 1 0%N;
     VersionMetadata.Row 8%N 2 0%N]
    3.

Definition example_world : World := MkWorld example_tables [] [].

(** A database that rejects every insert of joins, as a foreign-key or
    unique constraint would. *)
Definition reject_joins : DbCall → World → bool := λ c _,
  match c with
  | Query _ (InsertVersionMetadata _) => true
  | _ => false
  end.

(** ** Errors and what the database rejects *)

(** The database rejects call [c] whenever it comes next after the calls
    [log]. *)
Definition rejected_after (fault : DbCall → World → bool) (log : list DbCall)
    (c : DbCall) : Prop :=
  ∀ w, calls w = log → fault c w = true.

(** The rows of the tables.  The identity sequence of [metadata] is left
    out: a database does not roll a sequence back, and nothing is stated of
    it where a transaction is rolled back or still open. *)
Definition tableRows (tb : Tables)
    : list ObjectModel.row * list Version.row * list Metadata.row
      * list VersionMetadata.row :=
  (object tb, version tb, metadata tb, version_metadata tb).

(** A computation in transaction [t] that hides no error of the database:
    it sends statements on [t] only and keeps [t] open or closed as it
    was; when it throws, the last statement it sent was rejected in the
    state it was sent in (or the handle was not open) and the error is that
    statement's, unchanged; and a statement that the database rejects
    where it was sent is the last one sent and makes it throw. *)
Definition propagates {A} (fault : DbCall → World → bool) (t : nat) (m : M A) : Prop :=
  ∀ w, ∃ qs,
    calls (m w).2 = calls w ++ (Query t <$> qs) ∧
    (is_Some (open_work t w) ↔ is_Some (open_work t (m w).2)) ∧
    (∀ e, (m w).1 = Err e →
       ∃ qs0 s, qs = qs0 ++ [s] ∧
         match open_work t w with
         | Some _ =>
             e = DbError (Query t s) ∧
             ∃ w0, calls w0 = calls w ++ (Query t <$> qs0) ∧ fault (Query t s) w0 = true
         | None => e = TransactionClosed (Query t s)
         end) ∧
    (∀ qs0 s rest, qs = qs0 ++ s :: rest →
       rejected_after fault (calls w ++ (Query t <$> qs0)) (Query t s) →
       rest = [] ∧ ∃ e, (m w).1 = Err e).

(** ** Reading metadata of objects ([fetchMetadataForObject]) *)

(** [params] of [fetchMetadataForObject]. *)
Record FetchParams := MkFetchParams {
  objId : option (list uuid);
  metadataFilter : option (list KeyValue);
  userId : option uuid
}.

(** One element of the answer: [{ objectId, metadata: [{ key, value }] }]. *)
Record ObjectMetadata := MkObjectMetadata {
  objectId : uuid;
  objectMetadata : list KeyValue
}.

(** [ORDER BY version.objectId, version.createdAt DESC]: a row may come
    before another when its object id is smaller, or equal with a creation
    time at least as late.  Nothing orders two versions of one object that
    were created at the same time. *)
Definition version_le (a b : Version.row) : Prop :=
  (Version.objectId a < Version.objectId b)%N
  ∨ (Version.objectId a = Version.objectId b
     ∧ (Version.createdAt b ≤ Version.createdAt a)%Z).

#[global] Instance version_le_dec a b : Decision (version_le a b).
Proof. unfold version_le. apply _. Defined.

(** [DISTINCT ON (version.objectId)]: of the rows, in the order given, the
    first of each object id. *)
Fixpoint distinctOn (seen : list uuid) (rows : list Version.row) : list Version.row :=
  match rows with
  | [] => []
  | v :: rest =>
      if decide (Version.objectId v ∈ seen) then distinctOn seen rest
      else v :: distinctOn (Version.objectId v :: seen) rest
  end.

(** [row.version[0].metadata] of the result shaping: reading [metadata] of
    [undefined] throws. *)
Definition first_version_metadata (versions : list (Version.row * list KeyValue))
    : Result (list KeyValue) :=
  match versions with
  | [] => Err (TypeError "Cannot read properties of undefined (reading 'metadata')")
  | (_, md) :: _ => Ok md
  end.

(** [array.map(f)] with a callback that may throw: the first throw ends it. *)
Fixpoint map_throwing {X Y} (f : X → Result Y) (xs : list X) : Result (list Y) :=
  match xs with
  | [] => Ok []
  | x :: rest =>
      match f x with
      | Err e => Err e
      | Ok y =>
          match map_throwing f rest with
          | Err e => Err e
          | Ok ys => Ok (y :: ys)
          end
      end
  end.

Section Fetch.

(** The database's sort.  Any sort will do that answers the rows it was
    given in an order [ORDER BY] allows. *)
Variable orderBy : list Version.row → list Version.row.

(** The modifiers [filterIds] and [hasPermission] of the object model and
    [filterKeyValue] of the metadata model are not among the sources; each
    keeps or drops a row, given the parameter passed to it. *)
Variable filterIds : option (list uuid) → ObjectModel.row → bool.
Variable hasPermission : option uuid → string → ObjectModel.row → bool.
Variable filterKeyValue : option (list KeyValue) → Metadata.row → bool.

(** The [version] sub-query of the graph:
<<
    builder.select('version.id', 'version.objectId')
      .orderBy(['version.objectId', { column: 'version.createdAt', order: 'desc' }])
      .where('deleteMarker', false)
      .distinctOn('version.objectId')
>> *)
Definition latestVersions (versions : list Version.row) : list Version.row :=
  distinctOn [] (orderBy (filter (λ v, Version.deleteMarker v = false) versions)).

(** The versions the graph attaches to an object: the rows of the
    sub-query joined on [version.objectId = object.id] (a left join, so
    possibly none).  This is the "current version" of the object. *)
Definition currentVersion (o : uuid) (versions : list Version.row) : list Version.row :=
  filter (λ v, Version.objectId v = o) (latestVersions versions).

(** The [metadata] relation of a version, through [version_metadata], with
    [select('key', 'value')] and the [filterKeyValue] modifier. *)
Definition versionMetadata (params : FetchParams) (tb : Tables) (v : Version.row)
    : list KeyValue :=
  vm ← filter (λ vm, VersionMetadata.versionId vm = Version.id v) (version_metadata tb);
  m ← filter (λ m, Metadata.id m = VersionMetadata.metadataId vm
                   ∧ filterKeyValue (metadataFilter params) m = true) (metadata tb);
  [(Metadata.key m, Metadata.value m)].

(** The rows of the joined graph: the objects that pass [filterIds] and
    [hasPermission(userId, 'READ')], each with its versions.  The query
    has no [ORDER BY] on objects: the order of the object table stands for
    the order the database scans them in, and nothing is stated of it. *)
Definition fetchGraph (params : FetchParams) (tb : Tables)
    : list (uuid * list (Version.row * list KeyValue)) :=
  (λ o, (ObjectModel.id o,
         (λ v, (v, versionMetadata params tb v))
           <$> currentVersion (ObjectModel.id o) (version tb)))
    <$> filter (λ o, filterIds (objId params) o = true
                     ∧ hasPermission (userId params) "READ" o = true) (object tb).

(** [fetchMetadataForObject(params)]; it reads the committed tables. *)
Definition fetchMetadataForObject (params : FetchParams) (tb : Tables)
    : Result (list ObjectMetadata) :=
  map_throwing
    (λ row,
       match first_version_metadata row.2 with
       | Ok md => Ok (MkObjectMetadata row.1 md)
       | Err e => Err e
       end)
    (fetchGraph params tb).

End Fetch.

(** *** Two sorts a database may use *)

(** A merge sort of the rows as stored. *)
Definition orderBy_scan (rows : list Version.row) : list Version.row :=
  merge_sort version_le rows.

(** The same sort of the rows read backwards. *)
Definition orderBy_backward (rows : list Version.row) : list Version.row :=
  merge_sort version_le (reverse rows).

(** Object 1 has two versions of the same instant and an older one; object
    2 has only a delete marker. *)
Definition version_a : Version.row :=
  Version.Row 11%N 1%N None "text/plain" false 100 0%N.
Definition version_b : Version.row :=
  Version.Row 12%N 1%N None "text/plain" false 100 0%N.
Definition version_old : Version.row :=
  Version.Row 10%N 1%N None "text/plain" false 50 0%N.
Definition version_marker : Version.row :=
  Version.Row 20%N 2%N None "text/plain" true 70 0%N.

Definition example_versions : list Version.row :=
  [version_old; version_a; version_b; version_marker].

Definition tied_versions : list Version.row :=
  [version_a; version_b; version_marker].

Definition example_catalogue : Tables :=
  MkTables
    [ObjectModel.Row 1%N None "a.txt" false true;
     ObjectModel.Row 2%N None "b.txt" false true]
    example_versions
    [Metadata.Row 1 "a" "1"]
    [VersionMetadata.Row 11%N 1 0%N]
    2.

Definition any_object {X} : X → ObjectModel.row → bool := λ _ _, true.
Definition any_permission : option uuid → string → ObjectModel.row → bool := λ _ _ _, true.
Definition any_metadata : option (list KeyValue) → Metadata.row → bool := λ _ _, true.

(** ** The [searchPermissions] validator

    The schema is written with Joi.  What is modelled of Joi is the part
    the schema uses: presence flags, [required()], and
    [alternatives().conditional(ref, { is, then, otherwise })], with Joi's
    order of validation.  A schema first settles an absent value by its
    presence: [any.required] when it is [required], accepted when it is
    [optional], which is also the default.  A conditional that has both a
    [then] and an [otherwise] ends the switch, and a schema with an ended
    switch and no presence flag of its own has no default presence: an
    absent value goes on to its rules, that is, to the branch the condition
    selects. *)
Module Joi.

(** Values of a parsed query string, after conversion. *)
Inductive value :=
| VString (s : string)
| VBool (b : bool)
| VNumber (n : Z)
| VArray (items : list string).

Inductive presence := Optional | Required.

(** The outcome of validating one key: the converted value, absent when the
    key is, or the code of the error. *)
Inductive outcome :=
| Valid (v : option value)
| Invalid (code : string).

(** A schema: its presence flag when one was set, whether its switch is
    ended, and its type's rules, which may look at the sibling keys
    validated before it. *)
Record schema := Schema {
  flag : option presence;
  endedSwitch : bool;
  rules : (string → option value) → option value → outcome
}.

(** [schema.$_validate(value)] for one key. *)
Definition validate (s : schema) (siblings : string → option value)
    (v : option value) : outcome :=
  match v with
  | None =>
      match flag s with
      | Some Required => Invalid "any.required"
      | Some Optional => Valid None
      | None => if endedSwitch s then rules s siblings None else Valid None
      end
  | Some x => rules s siblings (Some x)
  end.

(** [schema.required()] *)
Definition required (s : schema) : schema :=
  Schema (Some Required) (endedSwitch s) (rules s).

(** [schema.messages({...})] changes the text of errors only. *)
Definition messages (s : schema) : schema := s.

(** The literal [true] as the [is] of a condition is compiled to
    [Joi.valid(true).required()]: it matches the value [true] and nothing
    else, an absent value included. *)
Definition is_true (v : option value) : bool :=
  match v with
  | Some (VBool true) => true
  | _ => false
  end.

(** [Joi.alternatives().conditional(ref, { is: true, then, otherwise })]:
    an alternatives schema without presence flag, its switch ended, whose
    rule validates the value at hand against [then] or [otherwise]
    according to the sibling [ref]. *)
Definition conditional (ref : string) (then_ otherwise : schema) : schema :=
  Schema None true
    (λ siblings v,
       if is_true (siblings ref) then validate then_ siblings v
       else validate otherwise siblings v).

End Joi.

(** The query of a [searchPermissions] request. *)
Record PermissionQuery := MkPermissionQuery {
  q_bucketId : option Joi.value;
  q_objectPerms : option Joi.value;
  q_permCode : option Joi.value;
  q_userId : option Joi.value
}.

Inductive Validation :=
| Accepted (converted : PermissionQuery)
| ValidationError (key code : string).

Section SearchPermissions.

(** [type.truthy], [type.uuidv4], [scheme.guid] and [scheme.permCode] come
    from [validators/common], which is not among the sources. *)
Variable type_truthy type_uuidv4 scheme_guid scheme_permCode : Joi.schema.

(** [schema.searchPermissions.query]:
<<
    Joi.object({
      bucketId: scheme.guid,
      objectPerms: type.truthy,
      permCode: scheme.permCode,
      userId: Joi.alternatives().conditional('objectPerms', {
        is: true,
        then: type.uuidv4.required().messages({...}),
        otherwise: scheme.guid
      })
    })
>>
    [userId] refers to [objectPerms], so Joi validates it after that key and
    the reference sees the converted value. *)
Definition userId_schema : Joi.schema :=
  Joi.conditional "objectPerms"
    (Joi.messages (Joi.required type_uuidv4)) scheme_guid.

(** The siblings [userId] can refer to. *)
Definition siblingsOf (objectPerms : option Joi.value) : string → option Joi.value :=
  λ key, if decide (key = "objectPerms") then objectPerms else None.

Definition searchPermissions (q : PermissionQuery) : Validation :=
  let none : string → option Joi.value := λ _, None in
  match Joi.validate scheme_guid none (q_bucketId q) with
  | Joi.Invalid code => ValidationError "bucketId" code
  | Joi.Valid bucketId =>
      match Joi.validate type_truthy none (q_objectPerms q) with
      | Joi.Invalid code => ValidationError "objectPerms" code
      | Joi.Valid objectPerms =>
          match Joi.validate scheme_permCode none (q_permCode q) with
          | Joi.Invalid code => ValidationError "permCode" code
          | Joi.Valid permCode =>
              match Joi.validate userId_schema (siblingsOf objectPerms) (q_userId q) with
              | Joi.Invalid code => ValidationError "userId" code
              | Joi.Valid userId =>
                  Accepted (MkPermissionQuery bucketId objectPerms permCode userId)
              end
          end
      end
  end.

End SearchPermissions.

(** *** Schemas to run the validator with *)

(** A boolean schema that also converts the strings ["true"] and ["false"]. *)
Definition example_truthy : Joi.schema :=
  Joi.Schema None false
    (λ _ v,
       match v with
       | None => Joi.Valid None
       | Some (Joi.VBool b) => Joi.Valid (Some (Joi.VBool b))
       | Some (Joi.VString "true") => Joi.Valid (Some (Joi.VBool true))
       | Some (Joi.VString "false") => Joi.Valid (Some (Joi.VBool false))
       | Some _ => Joi.Invalid "boolean.base"
       end).

(** A string schema, standing for a single uuid. *)
Definition example_uuidv4 : Joi.schema :=
  Joi.Schema None false
    (λ _ v,
       match v with
       | None => Joi.Valid None
       | Some (Joi.VString s) => Joi.Valid (Some (Joi.VString s))
       | Some _ => Joi.Invalid "string.base"
       end).

(** One string or an array of strings. *)
Definition example_guid : Joi.schema :=
  Joi.Schema None false
    (λ _ v,
       match v with
       | None => Joi.Valid None
       | Some (Joi.VString s) => Joi.Valid (Some (Joi.VString s))
       | Some (Joi.VArray items) => Joi.Valid (Some (Joi.VArray items))
       | Some _ => Joi.Invalid "alternatives.match"
       end).

(** ** The storage service, as its unit tests and the specification show it *)
Module Storage.

(** The [Tagging] field of a command: the query-string form that
    [PutObject] takes, or the tag set that [PutObjectTagging] takes. *)
Inductive TaggingValue :=
| UrlEncoded (s : string)
| TagSet (tags : list (string * string)).

(** The input of a command, with the fields the service fills. *)
Record Input := MkInput {
  Bucket : string;
  ContentType : string;
  Key : string;
  Body : string;
  Metadata : list (string * string);
  Tagging : option TaggingValue
}.

Inductive Command :=
| PutObjectCommand (input : Input)
| PutObjectTaggingCommand (input : Input).

(** What [utils.getBucket] resolves. *)
Record BucketData := MkBucketData { bucket : string; key : string }.

(** The options of [putObject] and [upload]. *)
Record Options := MkOptions {
  stream : string;
  id : string;
  mimeType : string;
  metadata : list (string * string);
  tags : option (list (string * string))
}.

(** A call on the S3 client answers or throws, and the client keeps the
    commands it received, oldest first. *)
Definition S (A : Type) : Type := list Command → Result A * list Command.

#[global] Instance S_ret : MRet S := λ A a received, (Ok a, received).

#[global] Instance S_bind : MBind S := λ A B k m received,
  match m received with
  | (Ok a, received') => k a received'
  | (Err e, received') => (Err e, received')
  end.

(** [utils.joinPath] *)
Definition joinPath (a b : string) : string := a +:+ "/" +:+ b.

Section Service.

(** Which commands the object store rejects. *)
Variable rejects : Command → bool.

(** [encodeURIComponent] of the JavaScript runtime. *)
Variable encodeURIComponent : string → string.

(** [s3Client.send(command)] *)
Definition send (c : Command) : S unit := λ received,
  if rejects c then (Err (StorageError "send"), received ++ [c])
  else (Ok (), received ++ [c]).

(** Tags in the query-string form, [k1=v1&k2=v2]. *)
Definition urlEncodeTags (tags : list (string * string)) : string :=
  String.concat "&" ((λ kv, kv.1 +:+ "=" +:+ encodeURIComponent kv.2) <$> tags).

Definition baseInput (data : BucketData) (o : Options) : Input :=
  MkInput (bucket data) (mimeType o) (joinPath (key data) (id o)) (stream o)
    (metadata o) None.

Definition withTagging (i : Input) (t : TaggingValue) : Input :=
  MkInput (Bucket i) (ContentType i) (Key i) (Body i) (Metadata i) (Some t).

(** Modelled from the spec: [services/storage.js] is not among the sources.
    [putObject] "writes content"; its unit test expects one [PutObject]
    command whose [Tagging], when tags are given, is the query-string form
    (['foo=foo&bar=bar']). *)
Definition putObject (data : BucketData) (o : Options) : S unit :=
  send (PutObjectCommand
          match tags o with
          | Some t => withTagging (baseInput data o) (UrlEncoded (urlEncodeTags t))
          | None => baseInput data o
          end).

(** Modelled from the spec: [services/storage.js] is not among the sources.
    [upload] "writes content; if tags supplied, tags are ... sent as a
    separate tagging call", so "object create can succeed while tag
    application fails".  Its unit test expects, for tags [{ foo: 'bar' }],
    a [PutObject] command without [Tagging] first and a [PutObjectTagging]
    command second, with the same fields and
    [Tagging: { TagSet: [{ Key: 'foo', Value: 'bar' }] }]. *)
Definition upload (data : BucketData) (o : Options) : S unit :=
  send (PutObjectCommand (baseInput data o));;
  match tags o with
  | Some t => send (PutObjectTaggingCommand (withTagging (baseInput data o) (TagSet t)))
  | None => mret ()
  end.

End Service.

(** An object store that rejects nothing, one that rejects every tagging
    command and one that rejects every put. *)
Definition accepts_all : Command → bool := λ _, false.

Definition rejects_put : Command → bool := λ c,
  match c with
  | PutObjectCommand _ => true
  | PutObjectTaggingCommand _ => false
  end.

(** The bucket and the options of the unit tests. *)
Definition test_bucket : BucketData := MkBucketData "bucket" "filePath".

Definition test_options (t : option (list (string * string))) : Options :=
  MkOptions "stream" "id" "mimeType" [("name", "originalName"); ("id", "id")] t.

End Storage.

(** ** The user service, as its unit tests and the specification show it *)
Module UserService.

(** The fields [_tokenToUser] maps from a token. *)
Record UserData := MkUserData {
  identityId : option string;
  username : option string;
  firstName : option string;
  lastName : option string;
  fullName : option string;
  email : option string;
  idp : option string
}.

#[global] Instance UserData_eq_dec : EqDecision UserData.
Proof. solve_decision. Defined.

(** [user(userId, identityId, idp, username, email, names)] *)
Record UserRow := MkUserRow { userId : string; data : UserData }.

(** [identity_provider(idp, createdBy)] *)
Record IdpRow := MkIdpRow { code : string; createdBy : uuid }.

(** The calls the unit tests spy on. *)
Inductive Call :=
| ReadIdp (code : string)
| CreateIdp (code : string)
| CreateUser (d : UserData)
| UpdateUser (userId : string) (d : UserData)
| ReadUser (userId : string)
| UserFirstByIdentityId (identityId : option string)
| IdpInsertAndFetch (row : IdpRow)
| UserInsertAndFetch (row : UserRow)
| UserPatchAndFetchById (userId : string) (d : UserData).

(** The two tables, the number of uuids drawn so far, and the calls made,
    oldest first. *)
Record State := MkState {
  identity_provider : list IdpRow;
  user : list UserRow;
  drawn : nat;
  calls : list Call
}.

Definition U (A : Type) : Type := State → Result A * State.

#[global] Instance U_ret : MRet U := λ A a s, (Ok a, s).

#[global] Instance U_bind : MBind U := λ A B k m s,
  match m s with
  | (Ok a, s') => k a s'
  | (Err e, s') => (Err e, s')
  end.

Definition spy (c : Call) : U unit := λ s,
  (Ok (), MkState (identity_provider s) (user s) (drawn s) (calls s ++ [c])).

Definition is_createUser (c : Call) : bool :=
  match c with CreateUser _ => true | _ => false end.
Definition is_updateUser (c : Call) : bool :=
  match c with UpdateUser _ _ => true | _ => false end.
Definition is_write (c : Call) : bool :=
  match c with
  | IdpInsertAndFetch _ | UserInsertAndFetch _ | UserPatchAndFetchById _ _ => true
  | _ => false
  end.
Definition is_idp_call (c : Call) : bool :=
  match c with
  | ReadIdp _ | CreateIdp _ | IdpInsertAndFetch _ => true
  | _ => false
  end.

Definition times (p : Call → bool) (cs : list Call) : nat :=
  length (List.filter p cs).

Section Service.

(** [uuidv4()]: the n-th identifier drawn. *)
Variable uuidv4 : nat → string.

(** The claims of a token. *)
Variable Token : Type.

(** [_tokenToUser] is mocked by the unit tests of [login]; any mapping
    from claims to user fields will do. *)
Variable _tokenToUser : Token → UserData.

(** The queries on the two models. *)

(** [IdentityProvider.query().findById(code)] *)
Definition idpFindById (code : string) : U (option IdpRow) := λ s,
  (Ok (List.find (λ r, bool_decide (UserService.code r = code)) (identity_provider s)), s).

(** [IdentityProvider.query(trx).insertAndFetch(row)] *)
Definition idpInsertAndFetch (row : IdpRow) : U IdpRow := λ s,
  (Ok row,
   MkState (identity_provider s ++ [row]) (user s) (drawn s)
     (calls s ++ [IdpInsertAndFetch row])).

(** [User.query(trx).insertAndFetch({ userId: uuidv4(), ... })] *)
Definition userInsertAndFetch (d : UserData) : U UserRow := λ s,
  let row := MkUserRow (uuidv4 (drawn s)) d in
  (Ok row,
   MkState (identity_provider s) (user s ++ [row]) (S (drawn s))
     (calls s ++ [UserInsertAndFetch row])).

(** [User.query().findById(userId).throwIfNotFound()] *)
Definition userFindById (userId : string) : U UserRow := λ s,
  match List.find (λ r, bool_decide (UserService.userId r = userId)) (user s) with
  | Some row => (Ok row, s)
  | None => (Err NotFoundError, s)
  end.

(** [User.query().where('identityId', identityId).first()] *)
Definition userFirstByIdentityId (identityId : option string) : U (option UserRow) := λ s,
  (Ok (List.find
         (λ r, bool_decide (UserService.identityId (data r) = identityId)) (user s)),
   MkState (identity_provider s) (user s) (drawn s)
     (calls s ++ [UserFirstByIdentityId identityId])).

(** [User.query(trx).patchAndFetchById(userId, obj)] *)
Definition userPatchAndFetchById (userId : string) (d : UserData) : U UserRow := λ s,
  (Ok (MkUserRow userId d),
   MkState (identity_provider s)
     ((λ r, if decide (UserService.userId r = userId) then MkUserRow userId d else r)
        <$> user s)
     (drawn s)
     (calls s ++ [UserPatchAndFetchById userId d])).

(** Modelled from the spec: [services/user.js] is not among the sources.
    [readIdp(code)] looks the code up in the IdentityProvider table. *)
Definition readIdp (code : string) : U (option IdpRow) :=
  spy (ReadIdp code);; idpFindById code.

(** Modelled from the spec: [createIdp(idp)] inserts the IdentityProvider
    row, [createdBy] the system user. *)
Definition createIdp (code : string) : U IdpRow :=
  spy (CreateIdp code);; idpInsertAndFetch (MkIdpRow code SYSTEM_USER).

(** Modelled from the spec: [createUser] "lazily creates the
    IdentityProvider row if the idp code is unseen", before inserting the
    user, and a user without idp "bypasses idp creation entirely". *)
Definition createUser (d : UserData) : U UserRow :=
  spy (CreateUser d);;
  match idp d with
  | Some code =>
      identityProvider ← readIdp code;
      match identityProvider with
      | Some _ => mret ()
      | None => createIdp code;; mret ()
      end
  | None => mret ()
  end;;
  userInsertAndFetch d.

(** Modelled from the spec: [readUser(userId)] is a "catalog lookup" that
    misses with [NotFoundError]. *)
Definition readUser (userId : string) : U UserRow :=
  spy (ReadUser userId);; userFindById userId.

(** Modelled from the spec: [updateUser] patches when "any mapped field
    differs" and is a "no-op if nothing differs". *)
Definition updateUser (userId : string) (d : UserData) : U UserRow :=
  spy (UpdateUser userId d);;
  oldUser ← readUser userId;
  if decide (data oldUser ≠ d) then userPatchAndFetchById userId d
  else mret oldUser.

(** Modelled from the spec: [login(claims)] "looks up by identityId; if
    absent, createUser; if present ... updateUser". *)
Definition login (token : Token) : U UserRow :=
  let newUser := _tokenToUser token in
  oldUser ← userFirstByIdentityId (identityId newUser);
  match oldUser with
  | None => createUser newUser
  | Some old => updateUser (UserService.userId old) newUser
  end.

End Service.

(** The user of the unit tests, and a generator of identifiers. *)
Definition test_user : UserData :=
  MkUserData (Some "00000000-0000-0000-0000-000000000000") (Some "jsmith:idir")
    (Some "john") (Some "smith") (Some "john smith") (Some "jsmith@email.com")
    (Some "idir").

Definition system_user : UserData :=
  MkUserData (Some "00000000-0000-0000-0000-000000000000") (Some "jsmith:idir")
    (Some "john") (Some "smith") (Some "john smith") (Some "jsmith@email.com")
    None.

Definition test_uuidv4 (n : nat) : string := "user-" +:+ pretty n.

Definition empty_state : State := MkState [] [] 0 [].

Definition known_state : State :=
  MkState [MkIdpRow "idir" SYSTEM_USER]
    [MkUserRow "a96f2809-d6f4-4cef-a02a-3f72edff06d7" test_user] 1 [].

End UserService.

(** ** Vocabulary for the properties of the metadata service *)

(** The pair a metadata row carries. *)
Definition keyValue (m : Metadata.row) : KeyValue := (Metadata.key m, Metadata.value m).

(** The incoming items that have no row yet, in order, repeats included:
    what [createMetadata] collects in [newMetadata]. *)
Definition unknownPairs (tb : Tables) (incoming : list KeyValue) : list KeyValue :=
  filter (λ kv, kv ∉ keyValue <$> metadata tb) incoming.

(** No metadata row without a join. *)
Definition noOrphans (tb : Tables) : Prop :=
  ∀ m, m ∈ metadata tb → referenced (version_metadata tb) m.

(** Joins carry only ids the identity sequence has already given out. *)
Definition joinsBelowSequence (tb : Tables) : Prop :=
  ∀ vm, vm ∈ version_metadata tb → (VersionMetadata.metadataId vm < metadata_id_seq tb)%Z.

(** A table with an orphan: metadata 9 has no join. *)
Definition orphan_tables : Tables :=
  MkTables [] []
    [Metadata.Row 1 "a" "1"; Metadata.Row 9 "z" "9"]
    [VersionMetadata.Row 7%N 1 0%N]
    10.

(** ** Reading metadata of versions ([fetchMetadataForVersion]) and
       searching metadata ([searchMetadata]) *)

(** [params] of [fetchMetadataForVersion]. *)
Record VersionParams := MkVersionParams {
  versionIds : option (list uuid);
  s3VersionIds : option (list string);
  versionMetadataFilter : option (list KeyValue);
  versionUserId : option uuid
}.


(** [ORDER BY version.createdAt DESC] *)
Definition newer_first (a b : Version.row) : Prop :=
  (Version.createdAt b ≤ Version.createdAt a)%Z.

#[global] Instance newer_first_dec a b : Decision (newer_first a b).
Proof. unfold newer_first. apply _. Defined.

Section FetchVersion.

(** The database's sort for [ORDER BY version.createdAt DESC]. *)
Variable orderByCreatedAt : list Version.row → list Version.row.

(** The modifiers [filterId] and [filterS3VersionId] of the version model,
    [hasPermission] of the object model and [filterKeyValue] of the
    metadata model are not among the sources; each keeps or drops a row,
    given the parameter passed to it. *)
Variable filterId : option (list uuid) → Version.row → bool.
Variable filterS3VersionId : option (list string) → Version.row → bool.
Variable hasPermission : option uuid → string → ObjectModel.row → bool.
Variable filterKeyValue : option (list KeyValue) → Metadata.row → bool.


(** The [where] part:
<<
    .modify((query) => {
      if (params.s3VersionIds) query.modify('filterS3VersionId', params.s3VersionIds);
      else query.modify('filterId', params.versionIds);
    })
    .modify('filterId', params.versionIds)
    .modify((query) => {
      if (params.userId) {
        query.allowGraph('object').withGraphJoined('object')
          .modifyGraph('object', query => { query.modify('hasPermission', params.userId, 'READ'); })
          .whereNotNull('object.id');
      }
    })
>> *)
Definition versionSelected (params : VersionParams) (tb : Tables) (v : Version.row) : Prop :=
  match s3VersionIds params with
  | Some ids => filterS3VersionId (Some ids) v = true
  | None => filterId (versionIds params) v = true
  end
  ∧ filterId (versionIds params) v = true
  ∧ match versionUserId params with
    | Some user =>
        Exists (λ o, ObjectModel.id o = Version.objectId v
                     ∧ hasPermission (Some user) "READ" o = true) (object tb)
    | None => True
    end.

#[global] Instance versionSelected_dec params tb v : Decision (versionSelected params tb v).
Proof.
  unfold versionSelected. destruct (s3VersionIds params), (versionUserId params); apply _.
Defined.


End FetchVersion.



(** ** The application ([app/app.js]): readiness, shutdown and the
       handling of a request *)
Module App.

(** [state] of the application, with what the process holds beside it: the
    exit code, the cleanup timers that [shutdown] has set and that have not
    fired yet, whether the connection probe is scheduled ([probeId]), and
    the connection checks that have been started and have not resolved. *)
Record State := MkState {
  connections : option bool;  (* [state.connections]: [{}] or [{ data }] *)
  ready : bool;
  shutdown : bool;
  exitCode : option nat;
  cleanupTimers : nat;
  probing : bool;
  probesInFlight : nat;
  initInFlight : bool
}.

(** [Object.values(state.connections).every(x => x)] *)
Definition everyConnection (c : option bool) : bool :=
  match c with
  | None => true
  | Some data => data
  end.

(** [function shutdown()]: [if (!state.shutdown) setTimeout(cleanup, 3000)] *)
Definition requestShutdown (s : State) : State :=
  if shutdown s then s
  else MkState (connections s) (ready s) (shutdown s) (exitCode s)
         (S (cleanupTimers s)) (probing s) (probesInFlight s) (initInFlight s).

(** [function cleanup()]: [state.shutdown = true; clearInterval(probeId)];
    the exit of the process that follows ends every run and is left out. *)
Definition cleanup (s : State) : State :=
  MkState (connections s) (ready s) true (exitCode s)
    (cleanupTimers s) false (probesInFlight s) (initInFlight s).

Definition setExitCode (s : State) : State :=
  MkState (connections s) (ready s) (shutdown s) (Some 1)
    (cleanupTimers s) (probing s) (probesInFlight s) (initInFlight s).

(** What the configuration and the environment decide at start. *)
Record Config := MkConfig {
  hasDb : bool;        (* [config.has('db.enabled')] *)
  oidc : bool;         (* the auth mode is OIDCAUTH or FULLAUTH *)
  testing : bool       (* [process.env.NODE_ENV === 'test'] *)
}.

(** The state when the module has been loaded: [initializeConnections()]
    is started unless testing, [state.connections.data = false] with a
    database, and an oidc mode without database sets the exit code and
    cleans up at once. *)
Definition boot (c : Config) : State :=
  let s0 := MkState (if hasDb c then Some false else None) false false None 0 false 0
              (negb (testing c)) in
  if oidc c && negb (hasDb c) then cleanup (setExitCode s0) else s0.

(** What can happen to a running application, one callback at a time. *)
Inductive Event :=
| Signal                      (* SIGTERM, SIGINT, SIGUSR1, SIGUSR2 *)
| CleanupTimer                (* a [setTimeout(cleanup, 3000)] fires *)
| InitResolves (data : bool)  (* [dataConnection.checkAll()] resolves *)
| InitRejects                 (* ... or rejects *)
| ProbeTick                   (* the 10 s interval calls [checkConnections] *)
| ProbeResolves (data : bool) (* [dataConnection.checkConnection()] resolves *)
| ProbeRejects.               (* ... or rejects: nothing handles it *)

(** The [finally] of [initializeConnections]. *)
Definition initFinally (s : State) : State :=
  let r := everyConnection (connections s) in
  MkState (connections s) r (shutdown s) (exitCode s) (cleanupTimers s)
    (if r then true else probing s) (probesInFlight s) false.

Definition setData (data : bool) (s : State) : State :=
  MkState (Some data) (ready s) (shutdown s) (exitCode s) (cleanupTimers s)
    (probing s) (probesInFlight s) (initInFlight s).

(** One callback; an event that cannot happen in the state leaves it. *)
Definition step (e : Event) (s : State) : State :=
  match e with
  | Signal => requestShutdown s
  | CleanupTimer =>
      match cleanupTimers s with
      | 0 => s
      | S n =>
          cleanup (MkState (connections s) (ready s) (shutdown s) (exitCode s) n
                     (probing s) (probesInFlight s) (initInFlight s))
      end
  | InitResolves data =>
      if initInFlight s then initFinally (setData data s) else s
  | InitRejects =>
      if initInFlight s then
        initFinally (if ready s then s else requestShutdown (setExitCode s))
      else s
  | ProbeTick =>
      if probing s && negb (shutdown s) then
        MkState (connections s) (ready s) (shutdown s) (exitCode s) (cleanupTimers s)
          (probing s) (S (probesInFlight s)) (initInFlight s)
      else s
  | ProbeResolves data =>
      match probesInFlight s with
      | 0 => s
      | S n =>
          let s1 := MkState (Some data) (everyConnection (Some data)) (shutdown s)
                      (exitCode s) (cleanupTimers s) (probing s) n (initInFlight s) in
          if ready s1 then s1 else requestShutdown (setExitCode s1)
      end
  | ProbeRejects =>
      match probesInFlight s with
      | 0 => s
      | S n =>
          MkState (connections s) (ready s) (shutdown s) (exitCode s) (cleanupTimers s)
            (probing s) n (initInFlight s)
      end
  end.

Definition run (events : list Event) (s : State) : State :=
  foldl (λ s e, step e s) s events.

(** What holds of a state when a failure has been met with a shutdown
    and readiness follows the data connection. *)
Definition reachable_facts (s : State) : Prop :=
  (exitCode s = Some 1 → shutdown s = true ∨ 0 < cleanupTimers s) ∧
  (ready s = true → connections s ≠ Some false).

(** An application that is not ready, with no probe scheduled, no check in
    flight and no exit code. *)
Definition stuck (s : State) : Prop :=
  ready s = false ∧ probing s = false ∧ probesInFlight s = 0 ∧ initInFlight s = false ∧
  exitCode s = None.

(** *** A request *)

(** What a router or a handler throws. *)
Inductive Thrown :=
| ThrownProblem (status : nat) (title : option string) (members : list (string * string))
| ThrownValidationError (statusCode : nat)
| ThrownError (message : string).  (* any other error, with its message *)

(** The middleware that [app.use] registers before the readiness guard
    ("block requests until service is ready"). *)
Inductive Early := compression | cors | json | urlencoded | httpLogger | keycloak.

(** ... in the order of their registration: [httpLogger] unless testing,
    [keycloak.middleware()] in the oidc modes. *)
Definition early (c : Config) : list Early :=
  [compression; cors; json; urlencoded]
  ++ (if testing c then [] else [httpLogger])
  ++ (if oidc c then [keycloak] else []).

(** What goes back to the client: a problem with its status, its title (one
    without title of its own gets the one the library has for its status)
    and its further members; the guard writes [details], the error handler
    and the 404 write [detail]. *)
Inductive Response (R : Type) :=
| Problem (status : nat) (title : option string) (members : list (string * string))
| ValidationFailure (status : nat)
| Directory                  (* the 200 of the base route *)
| FromRouter (r : R)
| FromMiddleware (m : Early) (r : R).  (* a middleware answers itself *)
Arguments Problem {R} status title members.
Arguments ValidationFailure {R} status.
Arguments Directory {R}.
Arguments FromRouter {R} r.
Arguments FromMiddleware {R} m r.

(** What a router does with a request: it answers, throws, or passes on. *)
Inductive Outcome (R : Type) :=
| Answers (r : R)
| Throws (err : Thrown)
| PassesOn.
Arguments Answers {R} r.
Arguments Throws {R} err.
Arguments PassesOn {R}.

(** What a middleware does with a request: it calls [next()] with the
    request as it then is (a parsed body, say), answers the request itself
    (as [cors] does for a preflight), or hands an error to [next] (as
    [express.json] does for a body it cannot parse). *)
Inductive Passage (Request R : Type) :=
| Next (req : Request)
| Ends (m : Early) (r : R)
| Fails (err : Thrown).
Arguments Next {Request R} req.
Arguments Ends {Request R} m r.
Arguments Fails {Request R} err.

Section Handling.

Variable Request R : Type.

(** What each middleware before the guard does with a request. *)
Variable runEarly : Early → Request → Passage Request R.

(** Whether [apiRouter.get('/')] takes the request. *)
Variable baseRoute : Request → bool.

(** The v1 router ([routes/v1], not among the sources). *)
Variable v1Router : Request → Outcome R.

(** [req.originalUrl] *)
Variable originalUrl : Request → string.

(** The error handler, [app.use((err, _req, res, _next) => ...)]. *)
Definition errorHandler (err : Thrown) : Response R :=
  match err with
  | ThrownProblem status title members => Problem status title members
  | ThrownValidationError statusCode => ValidationFailure statusCode
  | ThrownError message => Problem 500 (Some "Server Error") [("detail", message)]
  end.

(** The handler of the base route. *)
Definition baseHandler (s : State) : Outcome (Response R) :=
  if shutdown s then Throws (ThrownError "Server shutting down")
  else Answers Directory.

(** The middleware one after the other, up to the first that does not
    call [next()]. *)
Fixpoint passThrough (ms : list Early) (req : Request) : Passage Request R :=
  match ms with
  | [] => Next req
  | m :: ms =>
      match runEarly m req with
      | Next req => passThrough ms req
      | Ends answering r => Ends answering r
      | Fails err => Fails err
      end
  end.

(** The way of a request to the readiness guard. *)
Definition beforeGuard (c : Config) (req : Request) : Passage Request R :=
  passThrough (early c) req.

(** From the readiness guard ("block requests until service is ready") on:
    the guard, the api router, the error handler, the 404. *)
Definition fromGuard (s : State) (req : Request) : Response R :=
  if shutdown s then Problem 503 None [("details", "Server is shutting down")]
  else if negb (ready s) then Problem 503 None [("details", "Server is not ready")]
  else
    let outcome :=
      if baseRoute req then baseHandler s
      else match v1Router req with
           | Answers r => Answers (FromRouter r)
           | Throws err => Throws err
           | PassesOn => PassesOn
           end in
    match outcome with
    | Answers response => response
    | Throws err => errorHandler err
    | PassesOn => Problem 404 (Some "Page Not Found") [("detail", originalUrl req)]
    end.

(** The application: the middleware before the guard, whose answer ends
    the request and whose error goes to the error handler past the guard and
    the routers, then the guard and what follows it. *)
Definition handle (c : Config) (s : State) (req : Request) : Response R :=
  match beforeGuard c req with
  | Next req => fromGuard s req
  | Ends m r => FromMiddleware m r
  | Fails err => errorHandler err
  end.

End Handling.

End App.

(** ** The routers of objects and of object permissions *)
Module Routes.

(** The members of [Permissions] that the routers name. *)
Inductive Permission := READ | UPDATE | DELETE | MANAGE.

(** [router.get], [router.head], ... *)
Inductive Method := GET | HEAD | POST | PUT | PATCH | DEL.

(** The functions of [objectController]; [objectValidator] has a validator
    of the same name for each. *)
Inductive ObjectController :=
| createObjects | searchObjects | fetchMetadata | fetchTags
| headObject | readObject | updateObject | deleteObject
| listObjectVersion | togglePublic
| addMetadata | replaceMetadata | deleteMetadata
| addTags | replaceTags | deleteTags.

(** The functions of [objectPermissionController], and of
    [objectPermissionValidator]. *)
Inductive ObjectPermissionController :=
| searchPermissions | listPermissions | addPermissions | removePermissions.

#[global] Instance ObjectPermissionController_eq_dec : EqDecision ObjectPermissionController.
Proof. solve_decision. Defined.

(** What stands before a controller. *)
Inductive Middleware (C : Type) :=
| checkAppMode
| requireDb
| requireSomeAuth
| currentObject
| hasPermission (p : Permission)
| validator (c : C).
Arguments checkAppMode {C}.
Arguments requireDb {C}.
Arguments requireSomeAuth {C}.
Arguments currentObject {C}.
Arguments hasPermission {C} p.
Arguments validator {C} c.

Record Route (C : Type) := MkRoute {
  method : Method;
  path : string;
  handlers : list (Middleware C);
  controller : C
}.
Arguments MkRoute {C}.
Arguments method {C}.
Arguments path {C}.
Arguments handlers {C}.
Arguments controller {C}.

(** A router: what [router.use] has added, and its routes as declared. *)
Record Router (C : Type) := MkRouter {
  uses : list (Middleware C);
  routes : list (Route C)
}.
Arguments MkRouter {C}.
Arguments uses {C}.
Arguments routes {C}.

(** The router of objects. *)
Definition objectRouter : Router ObjectController :=
  MkRouter [checkAppMode]
    [ MkRoute POST "/" [validator createObjects; requireSomeAuth] createObjects;
      MkRoute GET "/" [validator searchObjects; requireSomeAuth; requireDb] searchObjects;
      MkRoute GET "/metadata" [validator fetchMetadata; requireSomeAuth; requireDb]
        fetchMetadata;
      MkRoute GET "/tagging" [validator fetchTags; requireSomeAuth; requireDb] fetchTags;
      MkRoute HEAD "/:objectId"
        [validator headObject; currentObject; hasPermission READ] headObject;
      MkRoute GET "/:objectId"
        [validator readObject; currentObject; hasPermission READ] readObject;
      MkRoute POST "/:objectId"
        [validator updateObject; requireSomeAuth; currentObject; hasPermission UPDATE]
        updateObject;
      MkRoute DEL "/:objectId"
        [validator deleteObject; requireSomeAuth; currentObject; hasPermission DELETE]
        deleteObject;
      MkRoute GET "/:objectId/version"
        [validator listObjectVersion; requireSomeAuth; requireDb; currentObject;
         hasPermission READ]
        listObjectVersion;
      MkRoute PATCH "/:objectId/public"
        [validator togglePublic; requireSomeAuth; requireDb; currentObject;
         hasPermission MANAGE]
        togglePublic;
      MkRoute PATCH "/:objectId/metadata"
        [validator addMetadata; requireSomeAuth; currentObject; hasPermission UPDATE]
        addMetadata;
      MkRoute PUT "/:objectId/metadata"
        [validator replaceMetadata; requireSomeAuth; currentObject; hasPermission UPDATE]
        replaceMetadata;
      MkRoute DEL "/:objectId/metadata"
        [validator deleteMetadata; requireSomeAuth; currentObject; hasPermission UPDATE]
        deleteMetadata;
      MkRoute PATCH "/:objectId/tagging"
        [validator addTags; requireSomeAuth; currentObject; hasPermission UPDATE] addTags;
      MkRoute PUT "/:objectId/tagging"
        [validator replaceTags; requireSomeAuth; currentObject; hasPermission UPDATE]
        replaceTags;
      MkRoute DEL "/:objectId/tagging"
        [validator deleteTags; requireSomeAuth; currentObject; hasPermission UPDATE]
        deleteTags ].

(** The router of object permissions. *)
Definition objectPermissionRouter : Router ObjectPermissionController :=
  MkRouter [checkAppMode; requireDb]
    [ MkRoute GET "/" [validator searchPermissions] searchPermissions;
      MkRoute GET "/:objectId"
        [validator listPermissions; requireSomeAuth; currentObject; hasPermission MANAGE]
        listPermissions;
      MkRoute PUT "/:objectId"
        [validator addPermissions; requireSomeAuth; currentObject; hasPermission MANAGE]
        addPermissions;
      MkRoute DEL "/:objectId"
        [validator removePermissions; requireSomeAuth; currentObject; hasPermission MANAGE]
        removePermissions ].

(** What a router does with a request: it invokes a controller with the
    request as the middleware before it has left it, or a middleware
    rejects the request, or no route takes it.  [passed] are the middleware
    that have called [next()], in their order. *)
Inductive Routed (C Request : Type) :=
| Invokes (c : C) (req : Request) (passed : list (Middleware C))
| Rejects (rejecting : Middleware C) (err : App.Thrown) (passed : list (Middleware C))
| Unmatched.
Arguments Invokes {C Request} c req passed.
Arguments Rejects {C Request} rejecting err passed.
Arguments Unmatched {C Request}.

Section Dispatch.

Variable C Request : Type.

(** Whether express lets the route of this method and path take the
    request. *)
Variable takes : Method → string → Request → bool.

(** A middleware on a request: it hands an error to [next], or calls
    [next()] with the request as it then is. *)
Variable run : Middleware C → Request → App.Thrown + Request.

(** The middleware one after the other, up to the first that rejects. *)
Fixpoint chain (ms : list (Middleware C)) (req : Request) (passed : list (Middleware C))
    : (Middleware C * App.Thrown * list (Middleware C)) + (Request * list (Middleware C)) :=
  match ms with
  | [] => inr (req, passed)
  | m :: ms =>
      match run m req with
      | inl err => inl (m, err, passed)
      | inr req => chain ms req (passed ++ [m])
      end
  end.

(** The middleware of the router, then the first route as declared that
    takes the request, its handlers, and its controller. *)
Definition dispatch (router : Router C) (req : Request) : Routed C Request :=
  match chain (uses router) req [] with
  | inl (m, err, passed) => Rejects m err passed
  | inr (req, passed) =>
      match List.find (λ r, takes (method r) (path r) req) (routes router) with
      | None => Unmatched
      | Some r =>
          match chain (handlers r) req passed with
          | inl (m, err, passed) => Rejects m err passed
          | inr (req, passed) => Invokes (controller r) req passed
          end
      end
  end.

End Dispatch.

(** A request for the examples: its method and its path, taken by the
    route that has both. *)
Definition example_takes (m : Method) (p : string) (req : Method * string) : bool :=
  match m, req.1 with
  | GET, GET | HEAD, HEAD | POST, POST | PUT, PUT | PATCH, PATCH | DEL, DEL =>
      bool_decide (p = req.2)
  | _, _ => false
  end.

Definition example_run {C Request : Type} (_ : Middleware C) (req : Request)
    : App.Thrown + Request :=
  inr req.

End Routes.
(** * Proofs *)

(** ** Transactions and refinement *)

Lemma open_work_Some t w tb :
  open_work t w = Some tb ↔ trxs w !! t = Some (MkTrx Open tb).
Proof.
  unfold open_work. destruct (trxs w !! t) as [[[] ?]|]; naive_solver.
Qed.

Lemma open_work_insert t w tb x ts :
  open_work t w = Some tb →
  open_work t (MkWorld (durable w) (<[t := MkTrx Open x]> (trxs w)) ts) = Some x.
Proof.
  rewrite !open_work_Some. simpl. intros H.
  apply list_lookup_insert_eq. by eapply lookup_lt_Some.
Qed.

Lemma touched_refl t w : touched t w w.
Proof.
  split; [done|]. split; [|by left].
  exists []. simpl. by rewrite app_nil_r.
Qed.

Lemma touched_open_work t w w' tb :
  touched t w w' → open_work t w = Some tb → is_Some (open_work t w').
Proof.
  intros (_ & _ & [Heq | (tb' & x & Hopen & Heq)]) Hw.
  - unfold open_work in *. rewrite Heq. rewrite Hw. eauto.
  - exists x. apply open_work_Some. rewrite Heq.
    apply list_lookup_insert_eq. apply open_work_Some in Hw.
    by eapply lookup_lt_Some.
Qed.

Lemma touched_trans t w1 w2 w3 :
  touched t w1 w2 → touched t w2 w3 → touched t w1 w3.
Proof.
  intros (Hd1 & [q1 Hc1] & Ht1) (Hd2 & [q2 Hc2] & Ht2).
  split; [congruence|]. split.
  { exists (q1 ++ q2). rewrite Hc2, Hc1, fmap_app. by rewrite app_assoc. }
  destruct Ht1 as [E1 | (tb1 & x1 & Ho1 & E1)],
           Ht2 as [E2 | (tb2 & x2 & Ho2 & E2)].
  - left. congruence.
  - right. exists tb2, x2. split; [|congruence].
    unfold open_work in *. by rewrite <- E1.
  - right. exists tb1, x1. split; [done | congruence].
  - right. exists tb1, x2. split; [done|].
    by rewrite E2, E1, list_insert_insert_eq.
Qed.

Lemma touched_status t w w' :
  touched t w w' → status <$> trxs w' = status <$> trxs w.
Proof.
  intros (_ & _ & [-> | (tb & x & Ho & ->)]); [done|].
  apply open_work_Some in Ho.
  rewrite list_fmap_insert. simpl.
  apply list_insert_id. by rewrite list_lookup_fmap, Ho.
Qed.

Section Refinement.
Variable fault : DbCall → World → bool.

Lemma in_trx_ret {A} t (a : A) : in_trx t (mret a) (λ tb, (a, tb)).
Proof.
  intros w. split; [apply touched_refl|].
  intros a' tb [= <-] Ho. done.
Qed.

Lemma in_trx_query {A} t s (f : Tables → A * Tables) :
  in_trx t (query fault t s f) f.
Proof.
  intros w. unfold query.
  destruct (open_work t w) as [tb|] eqn:Ho; [destruct (fault _ w)|]; simpl.
  - split; [|done]. split; [done|]. split; [|by left]. by exists [s].
  - split.
    + split; [done|]. split; [by exists [s]|]. right. by exists tb, (f tb).2.
    + intros a tb' [= <-] [= <-]. split; [done|].
      by eapply (open_work_insert t w tb).
  - split; [|done]. split; [done|]. split; [|by left]. by exists [s].
Qed.

Lemma in_trx_bind {A B} t (m : M A) (k : A → M B) g h :
  in_trx t m g → (∀ a, in_trx t (k a) (h a)) →
  in_trx t (m ≫= k) (λ tb, h (g tb).1 (g tb).2).
Proof.
  intros Hm Hk w. unfold mbind, M_bind.
  destruct (Hm w) as [Ht Hok]. destruct (m w) as [[a|e] w1] eqn:E; simpl in *.
  - destruct (Hk a w1) as [Ht1 Hok1]. split; [by eapply touched_trans|].
    intros b tb Hb Ho. destruct (Hok a tb eq_refl Ho) as [-> Ho1].
    by apply Hok1.
  - split; [done|]. intros ?? [=].
Qed.

Lemma in_trx_ext {A} t (m : M A) g g' :
  in_trx t m g → (∀ tb, g tb = g' tb) → in_trx t m g'.
Proof. intros Hm Hg w. destruct (Hm w) as [? H]. split; [done|].
  intros a tb. rewrite <- Hg. apply H. Qed.

Lemma createMetadata_in_trx metadata t :
  in_trx t (createMetadata fault metadata (Some t)) (tb_createMetadata metadata).
Proof.
  unfold createMetadata, withTransaction.
  eapply in_trx_ext.
  - eapply in_trx_bind; [apply in_trx_query|]. intros allMetadata.
    instantiate (1 := λ allMetadata,
      let '(existingMetadata, newMetadata) := sortMetadata allMetadata metadata in
      if decide (newMetadata ≠ []) then
        λ tb, (existingMetadata ++ (sql_insert_metadata newMetadata tb).1,
               (sql_insert_metadata newMetadata tb).2)
      else λ tb, (existingMetadata, tb)).
    simpl. destruct (sortMetadata allMetadata metadata) as [ex nw].
    destruct (decide (nw ≠ [])).
    + eapply in_trx_ext.
      * eapply in_trx_bind; [apply in_trx_query|]. intros rows. apply in_trx_ret.
      * done.
    + apply in_trx_ret.
  - intros tb. unfold tb_createMetadata. simpl.
    destruct (sortMetadata _ _) as [ex nw]. by destruct (decide _).
Qed.

Lemma pruneOrphanedMetadata_in_trx t :
  in_trx t (pruneOrphanedMetadata fault (Some t)) tb_pruneOrphanedMetadata.
Proof.
  unfold pruneOrphanedMetadata, withTransaction.
  eapply in_trx_ext.
  - eapply in_trx_bind; [apply in_trx_query|]. intros ids. apply in_trx_query.
  - done.
Qed.

Lemma dissociate_step_in_trx t versionId dbMetadata associatedMetadata :
  in_trx t
    (if decide (associatedMetadata ≠ []) then
       let dissociate := dissociateMetadata dbMetadata associatedMetadata in
       if decide (dissociate ≠ []) then
         let ids := VersionMetadata.metadataId <$> dissociate in
         query fault t (DeleteVersionMetadata ids versionId)
           (sql_delete_version_metadata ids versionId);;
         pruneOrphanedMetadata fault (Some t);;
         mret ()
       else mret ()
     else mret ())
    (λ tb,
       ((),
        if decide (associatedMetadata ≠ []) then
          if decide (dissociateMetadata dbMetadata associatedMetadata ≠ []) then
            (tb_pruneOrphanedMetadata
               (sql_delete_version_metadata
                  (VersionMetadata.metadataId <$>
                     dissociateMetadata dbMetadata associatedMetadata)
                  versionId tb).2).2
          else tb
        else tb)).
Proof.
  destruct (decide (associatedMetadata ≠ [])); [|apply in_trx_ret].
  simpl. destruct (decide (dissociateMetadata _ _ ≠ [])); [|apply in_trx_ret].
  eapply in_trx_ext.
  - eapply in_trx_bind; [apply in_trx_query|]. intros deleted.
    eapply in_trx_bind; [apply pruneOrphanedMetadata_in_trx|]. intros pruned.
    apply in_trx_ret.
  - done.
Qed.

Lemma join_step_in_trx t versionId currentUserId joins :
  in_trx t
    (if decide (joins ≠ []) then
       let rows :=
         (λ m, VersionMetadata.Row versionId (Metadata.id m) currentUserId) <$> joins in
       query fault t (InsertVersionMetadata rows) (sql_insert_version_metadata rows)
     else mret [])
    (tb_join versionId currentUserId joins).
Proof.
  unfold tb_join. destruct (decide (joins ≠ [])).
  - apply in_trx_query.
  - apply in_trx_ret.
Qed.

Lemma associateMetadata_in_trx versionId metadata currentUserId t :
  in_trx t (associateMetadata fault versionId metadata currentUserId (Some t))
    (tb_associateMetadata versionId metadata currentUserId).
Proof.
  unfold associateMetadata, withTransaction, tb_associateMetadata.
  destruct metadata as [[|kv rest]|]; try apply in_trx_ret.
  eapply in_trx_ext.
  - eapply in_trx_bind; [apply createMetadata_in_trx|]. intros dbMetadata.
    eapply in_trx_bind; [apply in_trx_query|]. intros associatedMetadata.
    eapply in_trx_bind; [apply dissociate_step_in_trx|]. intros u.
    apply join_step_in_trx.
  - intros tb. simpl. unfold tb_dissociate. done.
Qed.

End Refinement.

(** ** Facts about the table functions *)

Lemma tb_createMetadata_version_metadata incoming tb :
  version_metadata (tb_createMetadata incoming tb).2 = version_metadata tb.
Proof.
  unfold tb_createMetadata. destruct (sortMetadata _ _) as [ex nw].
  by destruct (decide _).
Qed.

Lemma tb_pruneOrphanedMetadata_version_metadata tb :
  version_metadata (tb_pruneOrphanedMetadata tb).2 = version_metadata tb.
Proof. done. Qed.

Lemma number_rows_kv next kvs :
  (λ m, (Metadata.key m, Metadata.value m)) <$> number_rows next kvs = kvs.
Proof.
  revert next. induction kvs as [|[k v] kvs IH]; intros next; simpl; [done|].
  by rewrite IH.
Qed.

Lemma sortMetadata_kv allMetadata incoming :
  ((λ m, (Metadata.key m, Metadata.value m)) <$> (sortMetadata allMetadata incoming).1)
    ++ (sortMetadata allMetadata incoming).2 ≡ₚ incoming.
Proof.
  induction incoming as [|[k v] rest IH]; simpl; [done|].
  destruct (sortMetadata allMetadata rest) as [ex nw]; simpl in *.
  destruct (getObjectsByKeyValue allMetadata k v); simpl.
  - by rewrite IH.
  - rewrite <- Permutation_middle. by rewrite IH.
Qed.

(** The rows [createMetadata] answers carry exactly the incoming pairs. *)
Lemma tb_createMetadata_kv incoming tb :
  (λ m, (Metadata.key m, Metadata.value m)) <$> (tb_createMetadata incoming tb).1
    ≡ₚ incoming.
Proof.
  unfold tb_createMetadata.
  pose proof (sortMetadata_kv (metadata tb) incoming) as H.
  destruct (sortMetadata _ _) as [ex nw]; simpl in *.
  destruct (decide (nw ≠ [])) as [Hn|Hn]; simpl.
  - by rewrite fmap_app, number_rows_kv.
  - apply dec_stable in Hn. subst nw. by rewrite app_nil_r in H.
Qed.

(** After the dissociation step the joins of the version are the former
    ones whose metadata is in the incoming set. *)
Lemma tb_dissociate_joins versionId dbMetadata tb vm :
  vm ∈ filterVersionId versionId (version_metadata (tb_dissociate versionId dbMetadata tb))
  ↔ vm ∈ filterVersionId versionId (version_metadata tb)
    ∧ VersionMetadata.metadataId vm ∈ Metadata.id <$> dbMetadata.
Proof.
  unfold tb_dissociate.
  set (assoc := filterVersionId versionId (version_metadata tb)).
  destruct (decide (assoc ≠ [])) as [Ha|Ha].
  - destruct (decide (dissociateMetadata dbMetadata assoc ≠ [])) as [Hd|Hd].
    + rewrite tb_pruneOrphanedMetadata_version_metadata. simpl.
      unfold filterVersionId. rewrite !list_elem_of_filter.
      subst assoc. unfold dissociateMetadata, filterVersionId.
      split.
      * intros (Hv & Hnd & Hin).
        assert (vm ∈ filter (λ vm0, VersionMetadata.versionId vm0 = versionId)
                       (version_metadata tb)) as Hvm
          by by apply list_elem_of_filter.
        split; [done|].
        destruct (decide (VersionMetadata.metadataId vm ∈ Metadata.id <$> dbMetadata))
          as [|Hno]; [done|].
        exfalso. apply Hnd. split; [|done].
        apply list_elem_of_fmap. exists vm. split; [done|].
        by apply list_elem_of_filter.
      * intros (Hvm & Hdb). apply list_elem_of_filter in Hvm as [Hv Hin].
        split; [done|]. split; [|done].
        intros [Hd' _]. apply list_elem_of_fmap in Hd' as (d & Heq & Hd').
        apply list_elem_of_filter in Hd' as [Hnot _].
        apply Hnot. by rewrite <- Heq.
    + apply dec_stable in Hd. fold assoc. split; [|tauto].
      intros Hin. split; [done|].
      destruct (decide (VersionMetadata.metadataId vm ∈ Metadata.id <$> dbMetadata))
        as [|Hno]; [done|].
      exfalso. eapply (filter_nil_not_elem_of _ _ vm Hd); done.
  - apply dec_stable in Ha. fold assoc. rewrite Ha.
    split; [by intros ?%elem_of_nil | by intros [?%elem_of_nil _]].
Qed.

Lemma newJoins_ids dbMetadata associatedMetadata x :
  x ∈ Metadata.id <$> newJoins dbMetadata associatedMetadata
  ↔ x ∈ Metadata.id <$> dbMetadata
    ∧ x ∉ VersionMetadata.metadataId <$> associatedMetadata.
Proof.
  unfold newJoins. destruct (decide (associatedMetadata ≠ [])) as [Ha|Ha].
  - rewrite !(list_elem_of_fmap Metadata.id). split.
    + intros (m & -> & Hm). apply list_elem_of_filter in Hm as [Hn Hm].
      split; [|done]. by exists m.
    + intros [(m & -> & Hm) Hn]. exists m. split; [done|].
      by apply list_elem_of_filter.
  - apply dec_stable in Ha. subst. simpl. split; [|tauto].
    intros H. split; [done|]. by intros ?%elem_of_nil.
Qed.

Lemma tb_join_version_metadata versionId currentUserId joins tb :
  version_metadata (tb_join versionId currentUserId joins tb).2
  = version_metadata tb
    ++ ((λ m, VersionMetadata.Row versionId (Metadata.id m) currentUserId) <$> joins).
Proof.
  unfold tb_join. destruct (decide (joins ≠ [])) as [Hj|Hj]; [done|].
  apply dec_stable in Hj. subst. simpl. by rewrite app_nil_r.
Qed.

(** The reconciliation, on the tables: for a non-empty incoming set the
    version ends up joined to exactly the resolved metadata ids. *)
Lemma tb_associateMetadata_joined versionId kv rest currentUserId tb :
  joinedMetadataIds versionId
    (tb_associateMetadata versionId (Some (kv :: rest)) currentUserId tb).2
  = list_to_set (Metadata.id <$> (tb_createMetadata (kv :: rest) tb).1).
Proof.
  unfold joinedMetadataIds, tb_associateMetadata.
  set (dbMetadata := (tb_createMetadata (kv :: rest) tb).1).
  set (tb1 := (tb_createMetadata (kv :: rest) tb).2).
  set (assoc := filterVersionId versionId (version_metadata tb1)).
  apply set_eq. intros x. rewrite !elem_of_list_to_set.
  rewrite tb_join_version_metadata.
  unfold filterVersionId at 1. rewrite filter_app, fmap_app, elem_of_app.
  fold (filterVersionId versionId (version_metadata (tb_dissociate versionId dbMetadata tb1))).
  assert (Hnew :
    x ∈ VersionMetadata.metadataId <$>
          filter (λ vm, VersionMetadata.versionId vm = versionId)
            ((λ m, VersionMetadata.Row versionId (Metadata.id m)
                     (default SYSTEM_USER currentUserId)) <$> newJoins dbMetadata assoc)
    ↔ x ∈ Metadata.id <$> newJoins dbMetadata assoc).
  { rewrite !list_elem_of_fmap. split.
    - intros (vm & -> & Hvm). apply list_elem_of_filter in Hvm as [_ Hvm].
      apply list_elem_of_fmap in Hvm as (m & -> & Hm). by exists m.
    - intros (m & -> & Hm).
      exists (VersionMetadata.Row versionId (Metadata.id m)
                (default SYSTEM_USER currentUserId)).
      split; [done|]. apply list_elem_of_filter. split; [done|].
      apply list_elem_of_fmap. by exists m. }
  rewrite Hnew, newJoins_ids.
  assert (Hold :
    x ∈ VersionMetadata.metadataId <$>
          filterVersionId versionId (version_metadata (tb_dissociate versionId dbMetadata tb1))
    ↔ x ∈ VersionMetadata.metadataId <$> assoc ∧ x ∈ Metadata.id <$> dbMetadata).
  { rewrite !(list_elem_of_fmap VersionMetadata.metadataId). split.
    - intros (vm & -> & Hvm). apply tb_dissociate_joins in Hvm as [Hvm Hdb].
      split; [by exists vm | done].
    - intros [(vm & -> & Hvm) Hdb]. exists vm. split; [done|].
      by apply tb_dissociate_joins. }
  rewrite Hold.
  destruct (decide (x ∈ VersionMetadata.metadataId <$> assoc)); tauto.
Qed.

(** ** The transaction idiom *)

Section Idiom.
Variable fault : DbCall → World → bool.
Context {A : Type} (body : nat → M A) (g : Tables → A * Tables).
Hypothesis body_in_trx : ∀ t, in_trx t (body t) g.

Lemma withTransaction_some t w a w' tb :
  withTransaction fault (Some t) body w = (Ok a, w') →
  open_work t w = Some tb →
  a = (g tb).1 ∧ open_work t w' = Some (g tb).2.
Proof.
  simpl. intros Hrun Ho. destruct (body_in_trx t w) as [_ H].
  rewrite Hrun in H. by apply H.
Qed.

Lemma insert_fresh (ts : list Trx) (x y : Trx) (ts' : list Trx) :
  (ts' = ts ++ [x] ∨
   ∃ tb z, open_work (length ts) (MkWorld tb (ts ++ [x]) []) = Some tb
           ∧ ts' = <[length ts := z]> (ts ++ [x])) →
  <[length ts := y]> ts' = ts ++ [y].
Proof.
  intros [-> | (tb & z & _ & ->)].
  - rewrite insert_app_r_alt, Nat.sub_diag by lia. done.
  - rewrite list_insert_insert_eq, insert_app_r_alt, Nat.sub_diag by lia. done.
Qed.

Lemma withTransaction_none w :
  let t := length (trxs w) in
  match withTransaction fault None body w with
  | (Ok a, w') =>
      a = (g (durable w)).1 ∧ durable w' = (g (durable w)).2 ∧
      trxs w' = trxs w ++ [MkTrx Committed (durable w')] ∧
      ∃ qs, calls w' = calls w ++ StartTransaction :: (Query t <$> qs) ++ [Commit t]
  | (Err e, w') => durable w' = durable w ∧ failed_alone t e w w'
  end.
Proof.
  intros t. unfold withTransaction, mbind, M_bind, startTransaction.
  destruct (fault StartTransaction w) eqn:Fs; simpl.
  { split; [done|]. by left. }
  set (w1 := MkWorld (durable w) (trxs w ++ [MkTrx Open (durable w)])
               (calls w ++ [StartTransaction])).
  assert (Ho1 : open_work t w1 = Some (durable w)).
  { apply open_work_Some. simpl. subst t. by rewrite list_lookup_middle. }
  unfold try_catch.
  destruct (body_in_trx t w1) as [(Hd & [qs Hc] & Ht) Hok].
  fold t. destruct (body t w1) as [[a|e] w2] eqn:Eb; simpl in *.
  - (* the body returned; commit *)
    destruct (Hok a _ eq_refl Ho1) as [-> Ho2].
    unfold commit. rewrite Ho2.
    assert (Hfresh : ∀ y, <[t := y]> (trxs w2) = trxs w ++ [y]).
    { intros y. apply (insert_fresh _ (MkTrx Open (durable w))).
      destruct Ht as [-> | (tb & z & _ & ->)]; [by left|].
      right. exists (durable w), (MkTrx Open z). split; [|done].
      apply open_work_Some. simpl. by rewrite list_lookup_middle. }
    destruct (fault (Commit t) w2) eqn:Fc; simpl.
    + (* commit rejected; roll back *)
      unfold rollback. simpl.
      assert (Ho3 : open_work t (record_call (Commit t) w2) = Some (g (durable w)).2)
        by done.
      rewrite Ho3.
      destruct (fault (Rollback t) _) eqn:Fr; simpl.
      * split; [done|]. right. exists qs, (g (durable w)).2. split.
        { right. simpl. rewrite Hc. by rewrite <- !app_assoc. }
        right. split; [done|].
        apply open_work_Some in Ho2.
        rewrite <- (Hfresh (MkTrx Open (g (durable w)).2)).
        symmetry. by apply list_insert_id.
      * split; [done|]. right. exists qs, (g (durable w)).2. split.
        { right. simpl. rewrite Hc. by rewrite <- !app_assoc. }
        left. apply Hfresh.
    + split; [done|]. split; [done|]. split; [apply Hfresh|].
      exists qs. simpl. rewrite Hc. by rewrite <- !app_assoc.
  - (* the body threw; roll back *)
    unfold rollback.
    assert (Ho2 : ∃ tb, open_work t w2 = Some tb).
    { destruct (touched_open_work t w1 w2 (durable w)) as [tb ?]; [|done|by exists tb].
      split; [done|]. split; [by exists qs | done]. }
    destruct Ho2 as [tb Ho2]. rewrite Ho2.
    assert (Hfresh : ∀ y, <[t := y]> (trxs w2) = trxs w ++ [y]).
    { intros y. apply (insert_fresh _ (MkTrx Open (durable w))).
      destruct Ht as [-> | (tb' & z & _ & ->)]; [by left|].
      right. exists (durable w), (MkTrx Open z). split; [|done].
      apply open_work_Some. simpl. by rewrite list_lookup_middle. }
    destruct (fault (Rollback t) w2) eqn:Fr; simpl.
    + split; [done|]. right. exists qs, tb. split.
      { left. simpl. rewrite Hc. by rewrite <- !app_assoc. }
      right. split; [done|].
      apply open_work_Some in Ho2.
      rewrite <- (Hfresh (MkTrx Open tb)). symmetry. by apply list_insert_id.
    + split; [done|]. right. exists qs, tb. split.
      { left. simpl. rewrite Hc. by rewrite <- !app_assoc. }
      left. apply Hfresh.
Qed.

End Idiom.

(** ** Outcome of a service call on the tables it works on *)

Section Effects.
Variable fault : DbCall → World → bool.

Lemma withTransaction_effect {A} (body : nat → M A) g etrx w a w' tb :
  (∀ t, in_trx t (body t) g) →
  withTransaction fault etrx body w = (Ok a, w') →
  target etrx w = Some tb →
  a = (g tb).1 ∧ target etrx w' = Some (g tb).2.
Proof.
  intros Hb Hrun Ht. destruct etrx as [t|]; simpl in Ht.
  - by eapply withTransaction_some.
  - injection Ht as <-.
    pose proof (withTransaction_none fault body g Hb w) as H.
    rewrite Hrun in H. simpl in H. destruct H as (-> & Hd & _). simpl.
    by rewrite Hd.
Qed.

Lemma associateMetadata_effect versionId metadata currentUserId etrx w r w' tb :
  associateMetadata fault versionId metadata currentUserId etrx w = (Ok r, w') →
  target etrx w = Some tb →
  r = (tb_associateMetadata versionId metadata currentUserId tb).1 ∧
  target etrx w' = Some (tb_associateMetadata versionId metadata currentUserId tb).2.
Proof.
  intros Hrun Ht.
  eapply (withTransaction_effect _ _ etrx w r w' tb); [|exact Hrun|exact Ht].
  intros t. apply (associateMetadata_in_trx fault versionId metadata currentUserId t).
Qed.

Lemma pruneOrphanedMetadata_effect etrx w n w' tb :
  pruneOrphanedMetadata fault etrx w = (Ok n, w') →
  target etrx w = Some tb →
  n = (tb_pruneOrphanedMetadata tb).1 ∧
  target etrx w' = Some (tb_pruneOrphanedMetadata tb).2.
Proof.
  intros Hrun Ht.
  eapply (withTransaction_effect _ _ etrx w n w' tb); [|exact Hrun|exact Ht].
  intros t. apply (pruneOrphanedMetadata_in_trx fault t).
Qed.

End Effects.

(** ** Pruning, on the tables *)

Lemma filter_ext_in {X} (P Q : X → Prop) `{∀ x, Decision (P x)} `{∀ x, Decision (Q x)}
    (l : list X) :
  (∀ x, x ∈ l → (P x ↔ Q x)) → filter P l = filter Q l.
Proof.
  induction l as [|x l IH]; intros Hext; [done|].
  rewrite !filter_cons.
  assert (P x ↔ Q x) as Hx by (apply Hext; left).
  rewrite IH by (intros y Hy; apply Hext; by right).
  destruct (decide (P x)), (decide (Q x)); tauto.
Qed.

Lemma tb_pruneOrphanedMetadata_metadata tb :
  metadata (tb_pruneOrphanedMetadata tb).2
  = filter (referenced (version_metadata tb)) (metadata tb).
Proof.
  unfold tb_pruneOrphanedMetadata. simpl.
  apply filter_ext_in. intros m Hm. split.
  - intros Hn. destruct (decide (referenced (version_metadata tb) m)) as [|Hu]; [done|].
    exfalso. apply Hn. apply list_elem_of_fmap. exists m. split; [done|].
    by apply list_elem_of_filter.
  - intros Hr Hin. apply list_elem_of_fmap in Hin as (m' & Heq & Hm').
    apply list_elem_of_filter in Hm' as [Hu _]. apply Hu.
    unfold referenced in *. by rewrite <- Heq.
Qed.

(** ** Reconciling one version leaves the others alone *)

Lemma tb_createMetadata_metadata incoming tb m :
  m ∈ metadata tb → m ∈ metadata (tb_createMetadata incoming tb).2.
Proof.
  unfold tb_createMetadata. destruct (sortMetadata _ _) as [ex nw].
  destruct (decide _); simpl; [|done]. intros. apply elem_of_app. by left.
Qed.

Lemma tb_dissociate_other versionId other dbMetadata tb :
  other ≠ versionId →
  filterVersionId other (version_metadata (tb_dissociate versionId dbMetadata tb))
  = filterVersionId other (version_metadata tb).
Proof.
  intros Hne. unfold tb_dissociate.
  destruct (decide _); [|done]. destruct (decide _); [|done].
  rewrite tb_pruneOrphanedMetadata_version_metadata. simpl.
  unfold filterVersionId. rewrite list_filter_filter.
  apply list_filter_iff. intros vm. split; [tauto|].
  intros Hv. split; [done|]. intros [_ Hv']. congruence.
Qed.

Lemma tb_dissociate_metadata versionId other dbMetadata tb m vm :
  other ≠ versionId →
  m ∈ metadata tb →
  vm ∈ version_metadata tb →
  VersionMetadata.versionId vm = other →
  VersionMetadata.metadataId vm = Metadata.id m →
  m ∈ metadata (tb_dissociate versionId dbMetadata tb).
Proof.
  intros Hne Hm Hvm Hv Hid. unfold tb_dissociate.
  destruct (decide _); [|done]. destruct (decide _); [|done].
  rewrite tb_pruneOrphanedMetadata_metadata. simpl.
  apply list_elem_of_filter. split; [|done].
  unfold referenced. apply list_elem_of_fmap. exists vm. split; [done|].
  apply list_elem_of_filter. split; [|done]. intros [_ Hv']. congruence.
Qed.

Lemma filterVersionId_app v l1 l2 :
  filterVersionId v (l1 ++ l2) = filterVersionId v l1 ++ filterVersionId v l2.
Proof. apply filter_app. Qed.

Lemma filterVersionId_joins_other versionId other currentUserId joins :
  other ≠ versionId →
  filterVersionId other
    ((λ m, VersionMetadata.Row versionId (Metadata.id m) currentUserId) <$> joins) = [].
Proof.
  intros Hne. induction joins as [|m joins IH]; [done|].
  simpl. unfold filterVersionId in *. rewrite filter_cons. simpl.
  destruct (decide (versionId = other)); [congruence | done].
Qed.

Lemma tb_associateMetadata_other versionId other incoming currentUserId tb :
  other ≠ versionId →
  filterVersionId other
    (version_metadata (tb_associateMetadata versionId incoming currentUserId tb).2)
  = filterVersionId other (version_metadata tb).
Proof.
  intros Hne. unfold tb_associateMetadata.
  destruct incoming as [[|kv rest]|]; try done.
  rewrite tb_join_version_metadata, filterVersionId_app.
  rewrite tb_dissociate_other, tb_createMetadata_version_metadata by done.
  rewrite filterVersionId_joins_other by done. by rewrite app_nil_r.
Qed.

Lemma tb_associateMetadata_shared versionId other incoming currentUserId tb m vm :
  other ≠ versionId →
  m ∈ metadata tb →
  vm ∈ version_metadata tb →
  VersionMetadata.versionId vm = other →
  VersionMetadata.metadataId vm = Metadata.id m →
  m ∈ metadata (tb_associateMetadata versionId incoming currentUserId tb).2.
Proof.
  intros Hne Hm Hvm Hv Hid. unfold tb_associateMetadata.
  destruct incoming as [[|kv rest]|]; try done.
  unfold tb_join. destruct (decide _); simpl;
    (eapply tb_dissociate_metadata;
     [exact Hne | by apply tb_createMetadata_metadata
      | by rewrite tb_createMetadata_version_metadata | exact Hv | exact Hid]).
Qed.

(** ** Errors are propagated *)

Lemma app_eq_middle {X} (l1 l2 p : list X) x r :
  l1 ++ l2 = p ++ x :: r →
  (∃ r1, l1 = p ++ x :: r1 ∧ r = r1 ++ l2) ∨ (∃ p2, p = l1 ++ p2 ∧ l2 = p2 ++ x :: r).
Proof.
  revert p. induction l1 as [|y l1 IH]; intros p H; simpl in *.
  - right. by exists p.
  - destruct p as [|z p]; simpl in *.
    + injection H as -> <-. left. by exists l1.
    + injection H as -> H. destruct (IH p H) as [(r1 & -> & ->) | (p2 & -> & ->)].
      * left. by exists r1.
      * right. by exists p2.
Qed.

Lemma fmap_eq_middle {X Y} (f : X → Y) (l : list X) p y r :
  f <$> l = p ++ y :: r →
  ∃ l0 x l1, l = l0 ++ x :: l1 ∧ p = f <$> l0 ∧ y = f x ∧ r = f <$> l1.
Proof.
  intros H. apply fmap_app_inv in H as (l0 & l' & -> & H & ->).
  symmetry in H. apply fmap_cons_inv in H as (x & l1 & -> & -> & ->).
  by exists l0, x, l1.
Qed.

Lemma open_work_None_touched t w w' :
  touched t w w' → (is_Some (open_work t w) ↔ is_Some (open_work t w')).
Proof.
  intros Ht. split.
  - intros [tb Ho]. by eapply touched_open_work.
  - destruct Ht as (_ & _ & [Heq | (tb & x & Ho & _)]).
    + unfold open_work. by rewrite Heq.
    + eauto.
Qed.

Lemma open_work_record_call t c w : open_work t (record_call c w) = open_work t w.
Proof. done. Qed.

Section Propagation.
Variable fault : DbCall → World → bool.

Lemma propagates_ret {A} t (a : A) : propagates fault t (mret a).
Proof.
  intros w. exists []. simpl. rewrite app_nil_r.
  split; [done|]. split; [done|]. split; [done|].
  intros qs0 s rest H. by destruct qs0.
Qed.

Lemma propagates_query {A} t s (f : Tables → A * Tables) :
  propagates fault t (query fault t s f).
Proof.
  intros w. exists [s]. unfold query.
  assert (Hone : ∀ qs0 s' rest, [s] = qs0 ++ s' :: rest → qs0 = [] ∧ s' = s ∧ rest = []).
  { intros [|? [|]] ?? [=]; auto. }
  destruct (open_work t w) as [tb|] eqn:Ho; [destruct (fault _ w) eqn:F|]; simpl.
  - split; [done|]. split; [by rewrite open_work_record_call, Ho|]. split.
    + intros e [= <-]. exists [], s. split; [done|]. split; [done|].
      exists w. simpl. by rewrite app_nil_r.
    + intros qs0 s' rest (-> & -> & ->)%Hone _. eauto.
  - split; [done|]. split.
    { split; [|eauto]. intros _. exists (f tb).2. by eapply (open_work_insert t w tb). }
    split; [done|].
    intros qs0 s' rest (-> & -> & ->)%Hone Hrej.
    rewrite (Hrej w) in F; [done|]. simpl. by rewrite app_nil_r.
  - split; [done|]. split; [by rewrite open_work_record_call, Ho|]. split.
    + intros e [= <-]. by exists [], s.
    + intros qs0 s' rest (-> & -> & ->)%Hone _. eauto.
Qed.

Lemma propagates_bind {A B} t (m : M A) (k : A → M B) :
  propagates fault t m → (∀ a, propagates fault t (k a)) →
  propagates fault t (m ≫= k).
Proof.
  intros Hm Hk w. unfold mbind, M_bind.
  destruct (Hm w) as (qs1 & Hc1 & Ho1 & He1 & Hr1).
  destruct (m w) as [[a|e] w1] eqn:E; simpl in *.
  2:{ exists qs1. split; [done|]. split; [done|]. split.
      - intros e0 [= <-]. by apply He1.
      - intros qs0 s rest H1 H2. destruct (Hr1 _ _ _ H1 H2) as [-> _]. eauto. }
  destruct (Hk a w1) as (qs2 & Hc2 & Ho2 & He2 & Hr2).
  exists (qs1 ++ qs2). split; [by rewrite Hc2, Hc1, fmap_app, app_assoc|].
  split; [by rewrite Ho1|]. split.
  - intros e He. destruct (He2 e He) as (qs0 & s & -> & Hs).
    exists (qs1 ++ qs0), s. split; [by rewrite app_assoc|].
    destruct (open_work t w) as [tb|] eqn:Hw.
    + destruct (proj1 Ho1) as [tb1 Hw1]; [eauto|]. rewrite Hw1 in Hs.
      destruct Hs as (-> & w0 & Hw0 & F). split; [done|]. exists w0. split; [|done].
      by rewrite Hw0, Hc1, fmap_app, app_assoc.
    + destruct (open_work t w1) as [tb1|] eqn:Hw1; [|done].
      destruct (proj2 Ho1) as [? [=]]. eauto.
  - intros qs0 s rest Hsplit Hrej.
    apply app_eq_middle in Hsplit as [(r1 & -> & ->) | (p2 & -> & ->)].
    + destruct (Hr1 qs0 s r1 eq_refl Hrej) as [_ [e [=]]].
    + apply (Hr2 p2 s rest eq_refl). intros w0 Hw0. apply Hrej.
      by rewrite Hw0, Hc1, fmap_app, app_assoc.
Qed.

Lemma createMetadata_propagates metadata t :
  propagates fault t (createMetadata fault metadata (Some t)).
Proof.
  unfold createMetadata, withTransaction.
  apply propagates_bind; [apply propagates_query|]. intros allMetadata.
  destruct (sortMetadata allMetadata metadata) as [ex nw].
  destruct (decide (nw ≠ [])); [|apply propagates_ret].
  apply propagates_bind; [apply propagates_query|]. intros rows. apply propagates_ret.
Qed.

Lemma pruneOrphanedMetadata_propagates t :
  propagates fault t (pruneOrphanedMetadata fault (Some t)).
Proof.
  unfold pruneOrphanedMetadata, withTransaction.
  apply propagates_bind; [apply propagates_query|]. intros ids. apply propagates_query.
Qed.

Lemma associateMetadata_propagates versionId metadata currentUserId t :
  propagates fault t (associateMetadata fault versionId metadata currentUserId (Some t)).
Proof.
  unfold associateMetadata, withTransaction.
  destruct metadata as [[|kv rest]|]; try apply propagates_ret.
  apply propagates_bind; [apply createMetadata_propagates|]. intros dbMetadata.
  apply propagates_bind; [apply propagates_query|]. intros associatedMetadata.
  apply propagates_bind.
  - destruct (decide (associatedMetadata ≠ [])); [|apply propagates_ret].
    simpl. destruct (decide (dissociateMetadata _ _ ≠ [])); [|apply propagates_ret].
    apply propagates_bind; [apply propagates_query|]. intros deleted.
    apply propagates_bind; [apply pruneOrphanedMetadata_propagates|]. intros pruned.
    apply propagates_ret.
  - intros u. simpl. destruct (decide (newJoins _ _ ≠ [])).
    + apply propagates_query.
    + apply propagates_ret.
Qed.

End Propagation.

Local Ltac log_eq Hc :=
  simpl; rewrite ?Hc, ?fmap_app, ?app_nil_r, <- ?app_assoc; simpl;
  rewrite ?app_nil_r; done.

(** The calls of a service function that opened its own transaction. *)
Section IdiomPropagation.
Variable fault : DbCall → World → bool.
Context {A : Type} (body : nat → M A) (g : Tables → A * Tables).
Hypothesis body_in_trx : ∀ t, in_trx t (body t) g.
Hypothesis body_propagates : ∀ t, propagates fault t (body t).

Lemma withTransaction_none_propagates w :
  let t := length (trxs w) in
  let x := withTransaction fault None body w in
  ∃ cs, calls x.2 = calls w ++ cs ∧
    (∀ a, x.1 = Ok a → ∃ qs, cs = StartTransaction :: (Query t <$> qs) ++ [Commit t]) ∧
    (∀ e, x.1 = Err e →
       ∃ cs0 c0, (cs = cs0 ++ [c0] ∨ cs = cs0 ++ [c0; Rollback t]) ∧
         e = DbError c0 ∧ ∃ w0, calls w0 = calls w ++ cs0 ∧ fault c0 w0 = true) ∧
    (∀ cs0 c0 rest, cs = cs0 ++ c0 :: rest →
       rejected_after fault (calls w ++ cs0) c0 →
       (∃ e, x.1 = Err e) ∧ (rest = [] ∨ rest = [Rollback t])).
Proof.
  intros t x. subst x. unfold withTransaction, mbind, M_bind, startTransaction.
  destruct (fault StartTransaction w) eqn:Fs; simpl.
  { exists [StartTransaction]. split; [done|]. split; [done|]. split.
    - intros e [= <-]. exists [], StartTransaction. split; [by left|]. split; [done|].
      exists w. by rewrite app_nil_r.
    - intros cs0 c0 rest H _. split; [eauto|]. left.
      destruct cs0 as [|? [|]]; by simplify_eq/=. }
  set (w1 := MkWorld (durable w) (trxs w ++ [MkTrx Open (durable w)])
               (calls w ++ [StartTransaction])).
  assert (Ho1 : open_work t w1 = Some (durable w)).
  { apply open_work_Some. simpl. subst t. by rewrite list_lookup_middle. }
  unfold try_catch.
  destruct (body_in_trx t w1) as [Htouched Hok].
  destruct (body_propagates t w1) as (qs & Hc & _ & Herr & Hrej).
  rewrite Ho1 in Herr. fold t.
  assert (Hpos : ∀ tail cs0 c0 rest,
            StartTransaction :: (Query t <$> qs) ++ tail = cs0 ++ c0 :: rest →
            rejected_after fault (calls w ++ cs0) c0 →
            ((∃ e, (body t w1).1 = Err e) ∧ rest = tail)
            ∨ ∃ tl0, cs0 = StartTransaction :: (Query t <$> qs) ++ tl0
                     ∧ tail = tl0 ++ c0 :: rest).
  { intros tail cs0 c0 rest H Hr.
    destruct cs0 as [|c cs0]; simpl in H; injection H as <- H.
    - rewrite (Hr w) in Fs; [done | by rewrite app_nil_r].
    - apply app_eq_middle in H as [(r1 & H & ->) | (p2 & -> & ->)].
      + apply fmap_eq_middle in H as (qs0 & s & qs1 & -> & -> & -> & ->).
        destruct (Hrej qs0 s qs1 eq_refl) as [-> He].
        { intros w0 Hw0. apply Hr. rewrite Hw0. log_eq Hc. }
        left. by split.
      + right. by exists p2. }
  destruct (body t w1) as [[a|e] w2] eqn:Eb; simpl in *.
  - (* the body returned *)
    destruct (Hok a _ eq_refl Ho1) as [_ Ho2]. unfold commit. rewrite Ho2.
    destruct (fault (Commit t) w2) eqn:Fc; simpl.
    + unfold rollback. simpl.
      assert (Ho3 : open_work t (record_call (Commit t) w2) = Some (g (durable w)).2)
        by done.
      rewrite Ho3. destruct (fault (Rollback t) _) eqn:Fr; simpl.
      * exists (StartTransaction :: (Query t <$> qs) ++ [Commit t; Rollback t]).
        split; [log_eq Hc|]. split; [done|]. split.
        -- intros e [= <-].
           exists (StartTransaction :: (Query t <$> qs) ++ [Commit t]), (Rollback t).
           split; [left; log_eq Hc|]. split; [done|].
           exists (record_call (Commit t) w2). split; [|done].
           simpl. log_eq Hc.
        -- intros cs0 c0 rest H Hr. split; [eauto|].
           destruct (Hpos _ _ _ _ H Hr) as [[[e [=]] _] | (tl0 & -> & Htl)].
           destruct tl0 as [|? [|? [|]]]; simplify_eq/=; auto.
      * exists (StartTransaction :: (Query t <$> qs) ++ [Commit t; Rollback t]).
        split; [log_eq Hc|]. split; [done|]. split.
        -- intros e [= <-].
           exists (StartTransaction :: (Query t <$> qs)), (Commit t).
           split; [right; log_eq Hc|]. split; [done|].
           exists w2. split; [|done]. log_eq Hc.
        -- intros cs0 c0 rest H Hr. split; [eauto|].
           destruct (Hpos _ _ _ _ H Hr) as [[[e [=]] _] | (tl0 & -> & Htl)].
           destruct tl0 as [|? [|? [|]]]; simplify_eq/=; auto.
    + exists (StartTransaction :: (Query t <$> qs) ++ [Commit t]).
      split; [log_eq Hc|]. split; [by exists qs|]. split; [done|].
      intros cs0 c0 rest H Hr.
      destruct (Hpos _ _ _ _ H Hr) as [[[e [=]] _] | (tl0 & -> & Htl)].
      destruct tl0 as [|? [|]]; simplify_eq/=.
      rewrite (Hr w2) in Fc; [done|]. log_eq Hc.
  - (* the body threw *)
    unfold rollback.
    destruct (touched_open_work t w1 w2 (durable w) Htouched Ho1) as [tb Ho2].
    rewrite Ho2. destruct (fault (Rollback t) w2) eqn:Fr; simpl.
    + exists (StartTransaction :: (Query t <$> qs) ++ [Rollback t]).
      split; [log_eq Hc|]. split; [done|]. split.
      * intros e' [= <-]. exists (StartTransaction :: (Query t <$> qs)), (Rollback t).
        split; [by left|]. split; [done|].
        exists w2. split; [|done]. log_eq Hc.
      * intros cs0 c0 rest H Hr. split; [eauto|].
        destruct (Hpos _ _ _ _ H Hr) as [[_ ->] | (tl0 & -> & Htl)]; [by right|].
        destruct tl0 as [|? [|]]; simplify_eq/=; auto.
    + exists (StartTransaction :: (Query t <$> qs) ++ [Rollback t]).
      split; [log_eq Hc|]. split; [done|]. split.
      * intros e' [= <-]. destruct (Herr e eq_refl) as (qs0 & s & -> & -> & w0 & Hw0 & F).
        exists (StartTransaction :: (Query t <$> qs0)), (Query t s).
        split; [right; log_eq Hc|]. split; [done|].
        exists w0. split; [|done]. rewrite Hw0. log_eq Hc.
      * intros cs0 c0 rest H Hr. split; [eauto|].
        destruct (Hpos _ _ _ _ H Hr) as [[_ ->] | (tl0 & -> & Htl)]; [by right|].
        destruct tl0 as [|? [|]]; simplify_eq/=; auto.
Qed.

End IdiomPropagation.

(** ** The metadata service: reconciliation, pruning, transactions *)

(** C1. [associateMetadata] does not make the incoming list the definitive
    set of its version, as its documentation says and the claim has it.
    With the empty list the guard [metadata && metadata.length] skips the
    reconciliation: version 7 keeps its join to metadata 1.  And with a
    pair that has no row yet, the orphans are pruned before the new joins
    are inserted: version 7 ends up joined to id 3 alone, and no metadata
    row has id 3 or carries the pair, so the pair is not joined to the
    version. *)
Theorem associateMetadata_not_definitive :
  let empty := associateMetadata no_fault 7%N (Some []) None None example_world in
  let fresh := associateMetadata no_fault 7%N (Some [("c", "3")]) None None example_world in
  (empty.1 = Ok [] ∧
   filterVersionId 7%N (version_metadata (durable empty.2))
     = [VersionMetadata.Row 7%N 1 0%N]) ∧
  (fresh.1 = Ok [VersionMetadata.Row 7%N 3 0%N] ∧
   filterVersionId 7%N (version_metadata (durable fresh.2))
     = [VersionMetadata.Row 7%N 3 0%N] ∧
   metadata (durable fresh.2) = [Metadata.Row 1 "a" "1"; Metadata.Row 2 "b" "2"]).
Proof.
  split.
  - vm_compute. done.
  - vm_compute. done.
Qed.

(** C2. With an empty or an absent incoming list [associateMetadata]
    dissociates nothing, against its documentation ("Dissociate extraneous
    metadata", the incoming list being "the definitive set") and the claim:
    version 7 is still joined to metadata 1, and the database saw the
    start and the commit of a transaction and no statement, neither a
    delete nor the orphan query. *)
Theorem associateMetadata_empty_keeps_joins :
  let empty := associateMetadata no_fault 7%N (Some []) None None example_world in
  let absent := associateMetadata no_fault 7%N None None None example_world in
  (empty.1 = Ok [] ∧
   filterVersionId 7%N (version_metadata (durable empty.2))
     = [VersionMetadata.Row 7%N 1 0%N] ∧
   calls empty.2 = [StartTransaction; Commit 0]) ∧
  (absent.1 = Ok [] ∧
   filterVersionId 7%N (version_metadata (durable absent.2))
     = [VersionMetadata.Row 7%N 1 0%N] ∧
   calls absent.2 = [StartTransaction; Commit 0]).
Proof.
  split.
  - vm_compute. done.
  - vm_compute. done.
Qed.

(** C3. [pruneOrphanedMetadata] deletes exactly the metadata rows no join
    references: the rows kept are the referenced ones, in place, the joins
    are untouched, and afterwards no unreferenced row is left.  And when
    versions share a metadata row, reconciling one of them (whatever the
    incoming set, so also when the row is dissociated from it) leaves the
    joins of the other as they were and the shared row in the table. *)
Theorem pruneOrphanedMetadata_exact :
  (∀ fault etrx w n w' tb,
     pruneOrphanedMetadata fault etrx w = (Ok n, w') →
     target etrx w = Some tb →
     ∃ tb', target etrx w' = Some tb' ∧
       version_metadata tb' = version_metadata tb ∧
       metadata tb' = filter (referenced (version_metadata tb)) (metadata tb) ∧
       (∀ m, m ∈ metadata tb' → referenced (version_metadata tb') m)) ∧
  (∀ fault V1 V2 incoming currentUserId etrx w r w' tb,
     associateMetadata fault V1 incoming currentUserId etrx w = (Ok r, w') →
     target etrx w = Some tb →
     V2 ≠ V1 →
     ∃ tb', target etrx w' = Some tb' ∧
       filterVersionId V2 (version_metadata tb') = filterVersionId V2 (version_metadata tb) ∧
       (∀ M, M ∈ metadata tb →
             Metadata.id M ∈
               VersionMetadata.metadataId <$> filterVersionId V2 (version_metadata tb) →
             M ∈ metadata tb')).
Proof.
  split.
  - intros fault etrx w n w' tb Hrun Ht.
    destruct (pruneOrphanedMetadata_effect _ _ _ _ _ _ Hrun Ht) as [_ Hw'].
    eexists. split; [exact Hw'|].
    rewrite tb_pruneOrphanedMetadata_version_metadata, tb_pruneOrphanedMetadata_metadata.
    split; [done|]. split; [done|].
    intros m Hm. by apply list_elem_of_filter in Hm as [? _].
  - intros fault V1 V2 incoming currentUserId etrx w r w' tb Hrun Ht Hne.
    destruct (associateMetadata_effect _ _ _ _ _ _ _ _ _ Hrun Ht) as [_ Hw'].
    eexists. split; [exact Hw'|]. split.
    + by apply tb_associateMetadata_other.
    + intros M HM Hid. apply list_elem_of_fmap in Hid as (vm & Hid & Hvm).
      apply list_elem_of_filter in Hvm as [Hv Hvm].
      by eapply (tb_associateMetadata_shared V1 V2).
Qed.

(** The scenario of C3, run: versions 7 and 8 share metadata 1; making
    [b=2] the definitive set of version 7 dissociates metadata 1 from it,
    and metadata 1 stays, joined to version 8. *)
Lemma pruneOrphanedMetadata_exact_witness :
  let run := associateMetadata no_fault 7%N (Some [("b", "2")]) None None example_world in
  ∃ tb', target None run.2 = Some tb' ∧
    filterVersionId 8%N (version_metadata tb')
      = filterVersionId 8%N (version_metadata example_tables) ∧
    (∀ M, M ∈ metadata example_tables →
          Metadata.id M ∈
            VersionMetadata.metadataId
              <$> filterVersionId 8%N (version_metadata example_tables) →
          M ∈ metadata tb').
Proof.
  intros run.
  apply (proj2 pruneOrphanedMetadata_exact no_fault 7%N 8%N (Some [("b", "2")]) None None
           example_world [VersionMetadata.Row 7%N 2 0%N] run.2 example_tables).
  - vm_compute. reflexivity.
  - reflexivity.
  - discriminate.
Defined.

(** C5. The transaction discipline of [associateMetadata], [createMetadata]
    and [pruneOrphanedMetadata], for every call, world and database.

    In the caller's transaction the call only sends statements on it: it
    asks for no commit and no rollback, every transaction keeps its status
    and the committed rows stay, whether it returns or throws.  It throws
    exactly the error of the last statement it sent, which the database
    rejected in the state it was sent in (or whose handle was not open);
    and a statement that the database rejects where it is sent is the last
    one sent and makes the call throw.

    Without a transaction the call starts one.  If it returns, the calls
    are the start, statements and the commit, and the transaction is
    committed.  If it throws, the committed rows are as before, the
    rollback was the last thing asked for unless the transaction could not
    be started, and the error is that of the call the database rejected:
    of the last one before the rollback, or of the rollback itself.  And
    whichever call the database rejects where it is sent, the call throws,
    with nothing after the rejected call but the rollback. *)
Theorem transaction_discipline fault c etrx w :
  let res := (perform fault c etrx w).1 in
  let w' := (perform fault c etrx w).2 in
  match etrx with
  | Some t =>
      tableRows (durable w') = tableRows (durable w) ∧
      status <$> trxs w' = status <$> trxs w ∧
      ∃ qs, calls w' = calls w ++ (Query t <$> qs) ∧
        (∀ e, res = Some e →
           ∃ qs0 s, qs = qs0 ++ [s] ∧
             match open_work t w with
             | Some _ =>
                 e = DbError (Query t s) ∧
                 ∃ w0, calls w0 = calls w ++ (Query t <$> qs0)
                       ∧ fault (Query t s) w0 = true
             | None => e = TransactionClosed (Query t s)
             end) ∧
        (∀ qs0 s rest, qs = qs0 ++ s :: rest →
           rejected_after fault (calls w ++ (Query t <$> qs0)) (Query t s) →
           rest = [] ∧ res ≠ None)
  | None =>
      let t := length (trxs w) in
      ∃ cs, calls w' = calls w ++ cs ∧
        match res with
        | None =>
            trxs w' = trxs w ++ [MkTrx Committed (durable w')] ∧
            ∃ qs, cs = StartTransaction :: (Query t <$> qs) ++ [Commit t]
        | Some e =>
            tableRows (durable w') = tableRows (durable w) ∧
            failed_alone t e w w' ∧
            ∃ cs0 c0, (cs = cs0 ++ [c0] ∨ cs = cs0 ++ [c0; Rollback t]) ∧
              e = DbError c0 ∧
              ∃ w0, calls w0 = calls w ++ cs0 ∧ fault c0 w0 = true
        end ∧
        (∀ cs0 c0 rest, cs = cs0 ++ c0 :: rest →
           rejected_after fault (calls w ++ cs0) c0 →
           res ≠ None ∧ (rest = [] ∨ rest = [Rollback t]))
  end.
Proof.
  assert (Hsome : ∀ A (m : M A) g t, in_trx t m g → propagates fault t m →
            tableRows (durable (m w).2) = tableRows (durable w) ∧
            status <$> trxs (m w).2 = status <$> trxs w ∧
            ∃ qs, calls (m w).2 = calls w ++ (Query t <$> qs) ∧
              (∀ e, thrown (m w).1 = Some e →
                 ∃ qs0 s, qs = qs0 ++ [s] ∧
                   match open_work t w with
                   | Some _ =>
                       e = DbError (Query t s) ∧
                       ∃ w0, calls w0 = calls w ++ (Query t <$> qs0)
                             ∧ fault (Query t s) w0 = true
                   | None => e = TransactionClosed (Query t s)
                   end) ∧
              (∀ qs0 s rest, qs = qs0 ++ s :: rest →
                 rejected_after fault (calls w ++ (Query t <$> qs0)) (Query t s) →
                 rest = [] ∧ thrown (m w).1 ≠ None)).
  { intros A m g t Hm Hp. destruct (Hm w) as [Ht _].
    destruct (Hp w) as (qs & Hc & _ & He & Hr).
    split; [by rewrite (proj1 Ht)|]. split; [by eapply touched_status|].
    exists qs. split; [done|]. split.
    - intros e Hthrown. apply He. by destruct (m w).1; simplify_eq/=.
    - intros qs0 s rest Hsplit Hrej.
      destruct (Hr qs0 s rest Hsplit Hrej) as [-> [e He']]. split; [done|].
      by rewrite He'. }
  assert (Hnone : ∀ A (body : nat → M A) g,
            (∀ t, in_trx t (body t) g) → (∀ t, propagates fault t (body t)) →
            let x := withTransaction fault None body w in
            let t := length (trxs w) in
            ∃ cs, calls x.2 = calls w ++ cs ∧
              match thrown x.1 with
              | None =>
                  trxs x.2 = trxs w ++ [MkTrx Committed (durable x.2)] ∧
                  ∃ qs, cs = StartTransaction :: (Query t <$> qs) ++ [Commit t]
              | Some e =>
                  tableRows (durable x.2) = tableRows (durable w) ∧
                  failed_alone t e w x.2 ∧
                  ∃ cs0 c0, (cs = cs0 ++ [c0] ∨ cs = cs0 ++ [c0; Rollback t]) ∧
                    e = DbError c0 ∧
                    ∃ w0, calls w0 = calls w ++ cs0 ∧ fault c0 w0 = true
              end ∧
              (∀ cs0 c0 rest, cs = cs0 ++ c0 :: rest →
                 rejected_after fault (calls w ++ cs0) c0 →
                 thrown x.1 ≠ None ∧ (rest = [] ∨ rest = [Rollback t]))).
  { intros A body g Hb Hp.
    pose proof (withTransaction_none fault body g Hb w) as H.
    destruct (withTransaction_none_propagates fault body g Hb Hp w)
      as (cs & Hcs & Hok & Herr & Hrej).
    cbv zeta in *. exists cs. split; [done|].
    destruct (withTransaction fault None body w) as [[a|e] w1]; simpl in *.
    - destruct H as (_ & _ & Htrx & _). split; [by eauto|].
      intros cs0 c0 rest Hsplit Hr. by destruct (Hrej _ _ _ Hsplit Hr) as [[e [=]] _].
    - destruct H as [Hd Hfail]. split; [by rewrite Hd; eauto|].
      intros cs0 c0 rest Hsplit Hr. by destruct (Hrej _ _ _ Hsplit Hr) as [_ ?]. }
  destruct etrx as [t|]; destruct c as [versionId incoming currentUserId|incoming|]; simpl.
  - apply (Hsome _ _ _ _ (associateMetadata_in_trx fault versionId incoming currentUserId t)
             (associateMetadata_propagates fault versionId incoming currentUserId t)).
  - apply (Hsome _ _ _ _ (createMetadata_in_trx fault incoming t)
             (createMetadata_propagates fault incoming t)).
  - apply (Hsome _ _ _ _ (pruneOrphanedMetadata_in_trx fault t)
             (pruneOrphanedMetadata_propagates fault t)).
  - apply (Hnone _ _ (tb_associateMetadata versionId incoming currentUserId)).
    + intros t. apply (associateMetadata_in_trx fault versionId incoming currentUserId t).
    + intros t. apply (associateMetadata_propagates fault versionId incoming currentUserId t).
  - apply (Hnone _ _ (tb_createMetadata incoming)).
    + intros t. apply (createMetadata_in_trx fault incoming t).
    + intros t. apply (createMetadata_propagates fault incoming t).
  - apply (Hnone _ _ tb_pruneOrphanedMetadata).
    + intros t. apply (pruneOrphanedMetadata_in_trx fault t).
    + intros t. apply (pruneOrphanedMetadata_propagates fault t).
Qed.

Lemma transaction_discipline_witness :
  (perform reject_joins (CallAssociateMetadata 7%N (Some [("b", "2")]) None) None
     example_world).1 ≠ None.
Proof.
  destruct (transaction_discipline reject_joins
              (CallAssociateMetadata 7%N (Some [("b", "2")]) None) None example_world)
    as (cs & Hcs & _ & Hrej).
  vm_compute in Hcs. subst cs.
  destruct (Hrej
              [StartTransaction; Query 0 SelectMetadata;
               Query 0 (SelectVersionMetadata 7%N);
               Query 0 (DeleteVersionMetadata [1%Z] 7%N);
               Query 0 SelectOrphanedMetadata; Query 0 (DeleteMetadata [])]
              (Query 0 (InsertVersionMetadata [VersionMetadata.Row 7%N 2 0%N]))
              [Rollback 0]) as [Hthrows _].
  - reflexivity.
  - intros w0 _. reflexivity.
  - exact Hthrows.
Defined.

(** ** The service, run *)

(** A rejected statement in a call that opened its own transaction: the
    error comes back, the committed rows are as before, and the rollback
    is the last thing asked of the database. *)
Example rejected_insert_rolls_back :
  let run := associateMetadata reject_joins 7%N (Some [("b", "2")]) None None example_world in
  run.1 = Err (DbError (Query 0 (InsertVersionMetadata [VersionMetadata.Row 7%N 2 0%N]))) ∧
  tableRows (durable run.2) = tableRows example_tables ∧
  status <$> trxs run.2 = [RolledBack] ∧
  last (calls run.2) = Some (Rollback 0).
Proof. vm_compute. done. Qed.

(** The same call inside a transaction of the caller: the error comes
    back, the transaction is still open, with the deletions made so far in
    its working tables, and nothing was committed or rolled back. *)
Example rejected_insert_in_caller_transaction :
  let w := MkWorld example_tables [MkTrx Open example_tables] [] in
  let run := associateMetadata reject_joins 7%N (Some [("b", "2")]) None (Some 0) w in
  run.1 = Err (DbError (Query 0 (InsertVersionMetadata [VersionMetadata.Row 7%N 2 0%N]))) ∧
  tableRows (durable run.2) = tableRows example_tables ∧
  status <$> trxs run.2 = [Open] ∧
  filterVersionId 7%N
    (from_option (λ x, version_metadata (work x)) [] (trxs run.2 !! 0)) = [] ∧
  (Commit 0 ∉ calls run.2) ∧ (Rollback 0 ∉ calls run.2).
Proof.
  vm_compute. repeat split; try done.
  - intros H. repeat (apply elem_of_cons in H as [H|H]; [discriminate H|]).
    by apply elem_of_nil in H.
  - intros H. repeat (apply elem_of_cons in H as [H|H]; [discriminate H|]).
    by apply elem_of_nil in H.
Qed.

(** Pruning runs before the new joins are inserted, so it also takes the
    metadata rows [createMetadata] has just inserted for the incoming set:
    here version 7 ends up joined to metadata id 3, and no metadata row
    with id 3 is left (on a database that does not reject such a join). *)
Example fresh_metadata_is_pruned :
  let run := associateMetadata no_fault 7%N (Some [("c", "3")]) None None example_world in
  run.1 = Ok [VersionMetadata.Row 7%N 3 0%N] ∧
  filterVersionId 7%N (version_metadata (durable run.2)) = [VersionMetadata.Row 7%N 3 0%N] ∧
  Metadata.id <$> metadata (durable run.2) = [1%Z; 2%Z].
Proof. vm_compute. done. Qed.

(** ** Current version and the shape of the answer *)

#[global] Instance version_le_total : Total version_le.
Proof.
  intros a b. unfold version_le.
  destruct (N.lt_trichotomy (Version.objectId a) (Version.objectId b)) as [?|[?|?]];
    [by left; left | | by right; left].
  destruct (Z.le_ge_cases (Version.createdAt a) (Version.createdAt b)).
  - right. right. done.
  - left. right. done.
Qed.

#[global] Instance version_le_trans : Transitive version_le.
Proof.
  intros a b c [Hab|[Hab Hab']] [Hbc|[Hbc Hbc']]; unfold version_le.
  - left. lia.
  - left. lia.
  - left. lia.
  - right. split; [congruence | lia].
Qed.

Lemma orderBy_scan_valid rows :
  orderBy_scan rows ≡ₚ rows ∧ StronglySorted version_le (orderBy_scan rows).
Proof.
  split; [apply merge_sort_Permutation | apply StronglySorted_merge_sort; apply _].
Qed.

Lemma orderBy_backward_valid rows :
  orderBy_backward rows ≡ₚ rows ∧ StronglySorted version_le (orderBy_backward rows).
Proof.
  unfold orderBy_backward. split.
  - by rewrite merge_sort_Permutation, reverse_Permutation.
  - apply StronglySorted_merge_sort; apply _.
Qed.

Lemma distinctOn_filter o seen rows :
  filter (λ v, Version.objectId v = o) (distinctOn seen rows)
  = if decide (o ∈ seen) then []
    else match filter (λ v, Version.objectId v = o) rows with
         | [] => []
         | v :: _ => [v]
         end.
Proof.
  revert seen. induction rows as [|v rest IH]; intros seen; simpl.
  { by destruct (decide _). }
  rewrite (filter_cons _ v rest).
  destruct (decide (Version.objectId v ∈ seen)) as [Hs|Hs].
  - rewrite IH. destruct (decide (o ∈ seen)) as [|Ho]; [done|].
    destruct (decide (Version.objectId v = o)) as [<-|]; done.
  - rewrite filter_cons. destruct (decide (Version.objectId v = o)) as [Hv|Hv].
    + rewrite IH. subst o. rewrite decide_True by left.
      by rewrite decide_False.
    + rewrite IH. destruct (decide (o ∈ seen)) as [Ho|Ho].
      * rewrite decide_True; [done | by right].
      * rewrite decide_False; [done|].
        intros [?|?]%elem_of_cons; congruence.
Qed.

Lemma sorted_filter_head {X} (R : relation X) (P : X → Prop) `{∀ x, Decision (P x)}
    (l : list X) v rest :
  StronglySorted R l → filter P l = v :: rest →
  ∀ u, u ∈ l → P u → u = v ∨ R v u.
Proof.
  induction 1 as [|x l' Hs IH Hall]; intros Hf u Hu HP.
  { by apply elem_of_nil in Hu. }
  rewrite filter_cons in Hf. destruct (decide (P x)) as [Hx|Hx].
  - injection Hf as -> _. apply elem_of_cons in Hu as [->|Hu]; [by left|].
    right. rewrite Forall_forall in Hall. by apply Hall.
  - apply elem_of_cons in Hu as [->|Hu]; [done|]. by apply IH.
Qed.

Section CurrentVersion.
Variable orderBy : list Version.row → list Version.row.
Hypothesis orderBy_Permutation : ∀ rows, orderBy rows ≡ₚ rows.
Hypothesis orderBy_sorted : ∀ rows, StronglySorted version_le (orderBy rows).

Lemma currentVersion_head o versions :
  currentVersion orderBy o versions
  = match filter (λ v, Version.objectId v = o)
            (orderBy (filter (λ v, Version.deleteMarker v = false) versions)) with
    | [] => []
    | v :: _ => [v]
    end.
Proof. unfold currentVersion, latestVersions. by rewrite distinctOn_filter. Qed.

Lemma candidate_iff o versions u :
  u ∈ filter (λ v, Version.objectId v = o)
        (orderBy (filter (λ v, Version.deleteMarker v = false) versions))
  ↔ u ∈ versions ∧ Version.objectId u = o ∧ Version.deleteMarker u = false.
Proof.
  rewrite list_elem_of_filter, orderBy_Permutation, list_elem_of_filter. tauto.
Qed.

End CurrentVersion.

(** C4 (as amended). For every object the version the graph attaches, the
    "current version", is one that is not a delete marker and whose
    [createdAt] is the greatest among the object's versions that are not
    delete markers, and there is none exactly when every version of the
    object is a delete marker.  This holds for every sort that honours the
    [ORDER BY]; the query names no further sort key. *)
Theorem currentVersion_greatest orderBy o versions :
  (∀ rows, orderBy rows ≡ₚ rows) →
  (∀ rows, StronglySorted version_le (orderBy rows)) →
  match currentVersion orderBy o versions with
  | [] =>
      ∀ u, u ∈ versions → Version.objectId u = o → Version.deleteMarker u = true
  | [v] =>
      v ∈ versions ∧ Version.objectId v = o ∧ Version.deleteMarker v = false ∧
      ∀ u, u ∈ versions → Version.objectId u = o → Version.deleteMarker u = false →
           (Version.createdAt u ≤ Version.createdAt v)%Z
  | _ => False
  end.
Proof.
  intros Hperm Hsorted. rewrite currentVersion_head.
  destruct (filter (λ v, Version.objectId v = o) _) as [|v rest] eqn:Hf.
  - (* no candidate: every version of the object is a delete marker *)
    intros u Hu Ho. destruct (Version.deleteMarker u) eqn:Hd; [done|].
    assert (u ∈ @nil Version.row) as Hin; [|by apply elem_of_nil in Hin].
    rewrite <- Hf. by apply candidate_iff.
  - (* the head of the candidates, in the order of the sort *)
    assert (Hv : v ∈ versions ∧ Version.objectId v = o ∧ Version.deleteMarker v = false).
    { apply (candidate_iff orderBy Hperm). rewrite Hf. left. }
    destruct Hv as (Hv & Ho & Hd). split; [done|]. split; [done|]. split; [done|].
    intros u Hu Hou Hdu.
    destruct (sorted_filter_head version_le (λ v, Version.objectId v = o) _ v rest
                (Hsorted _) Hf u) as [->|[Hlt|[_ Hle]]]; [| done | lia | lia | done].
    rewrite Hperm. by apply list_elem_of_filter.
Qed.

Lemma currentVersion_greatest_witness :
  match currentVersion orderBy_scan 1%N example_versions with
  | [] =>
      ∀ u, u ∈ example_versions → Version.objectId u = 1%N → Version.deleteMarker u = true
  | [v] =>
      v ∈ example_versions ∧ Version.objectId v = 1%N ∧ Version.deleteMarker v = false ∧
      ∀ u, u ∈ example_versions → Version.objectId u = 1%N →
           Version.deleteMarker u = false →
           (Version.createdAt u ≤ Version.createdAt v)%Z
  | _ => False
  end.
Proof.
  apply (currentVersion_greatest orderBy_scan 1%N example_versions).
  - intros rows. apply orderBy_scan_valid.
  - intros rows. apply orderBy_scan_valid.
Defined.

(** C4 as stated fails on ties.  Versions 11 and 12 of object 1 were
    created at the same instant.  Two sorts that both honour the
    [ORDER BY] disagree on the current version: one makes it version 11,
    the other version 12, so neither the order of the ids nor the order of
    the rows in the table decides. *)
Lemma currentVersion_tie_counterexample :
  ((∀ rows, orderBy_scan rows ≡ₚ rows ∧ StronglySorted version_le (orderBy_scan rows)) ∧
   (∀ rows, orderBy_backward rows ≡ₚ rows
            ∧ StronglySorted version_le (orderBy_backward rows))) ∧
  Version.createdAt version_a = Version.createdAt version_b ∧
  currentVersion orderBy_scan 1%N tied_versions = [version_a] ∧
  currentVersion orderBy_backward 1%N tied_versions = [version_b] ∧
  version_a ≠ version_b.
Proof.
  split; [split; [apply orderBy_scan_valid | apply orderBy_backward_valid]|].
  split; [reflexivity|].
  split; [vm_compute; reflexivity|]. split; [vm_compute; reflexivity|].
  discriminate.
Qed.

Lemma map_throwing_Err {X Y} (f : X → Result Y) xs x e :
  x ∈ xs → f x = Err e → (∀ y e', y ∈ xs → f y = Err e' → e' = e) →
  map_throwing f xs = Err e.
Proof.
  induction xs as [|y xs IH]; intros Hx Hf Hall; [by apply elem_of_nil in Hx|].
  simpl. destruct (f y) as [b|e'] eqn:Hy.
  - apply elem_of_cons in Hx as [->|Hx]; [congruence|].
    rewrite IH; [done..|]. intros z e'' Hz. apply Hall. by right.
  - f_equal. apply (Hall y); [left | done].
Qed.

(** C10. When the filters of [fetchMetadataForObject] let through an object
    none of whose versions is other than a delete marker, the graph gives
    that object an empty version list, reading [row.version[0].metadata]
    throws, and the whole call fails with that type error; no answer with
    an empty metadata list is produced. *)
Theorem fetchMetadataForObject_throws
    orderBy filterIds hasPermission filterKeyValue params tb o :
  (∀ rows, orderBy rows ≡ₚ rows) →
  o ∈ object tb →
  filterIds (objId params) o = true →
  hasPermission (userId params) "READ" o = true →
  (∀ v, v ∈ version tb → Version.objectId v = ObjectModel.id o →
        Version.deleteMarker v = true) →
  fetchMetadataForObject orderBy filterIds hasPermission filterKeyValue params tb
  = Err (TypeError "Cannot read properties of undefined (reading 'metadata')").
Proof.
  intros Hperm Ho Hids Hread Hmarkers. unfold fetchMetadataForObject.
  assert (Hnone : currentVersion orderBy (ObjectModel.id o) (version tb) = []).
  { unfold currentVersion, latestVersions. rewrite distinctOn_filter. simpl.
    destruct (filter _ (orderBy _)) as [|v rest] eqn:Hf; [done|].
    assert (Hv : v ∈ filter (λ v, Version.objectId v = ObjectModel.id o)
                   (orderBy (filter (λ v, Version.deleteMarker v = false) (version tb))))
      by (rewrite Hf; left).
    apply list_elem_of_filter in Hv as [Hoid Hv]. rewrite Hperm in Hv.
    apply list_elem_of_filter in Hv as [Hd Hv].
    rewrite (Hmarkers v Hv Hoid) in Hd. done. }
  eapply (map_throwing_Err _ _ (ObjectModel.id o, [])).
  - unfold fetchGraph. apply list_elem_of_fmap. exists o. rewrite Hnone. split; [done|].
    by apply list_elem_of_filter.
  - done.
  - intros [oid [|[v md] vs]] e' _; simpl; congruence.
Qed.

Lemma fetchMetadataForObject_throws_witness :
  fetchMetadataForObject orderBy_scan any_object any_permission any_metadata
    (MkFetchParams None None None) example_catalogue
  = Err (TypeError "Cannot read properties of undefined (reading 'metadata')").
Proof.
  apply (fetchMetadataForObject_throws orderBy_scan any_object any_permission any_metadata
           (MkFetchParams None None None) example_catalogue
           (ObjectModel.Row 2%N None "b.txt" false true)).
  - intros rows. apply orderBy_scan_valid.
  - right. left.
  - reflexivity.
  - reflexivity.
  - intros v Hv Hoid. vm_compute in Hv.
    repeat (apply elem_of_cons in Hv as [->|Hv]; [try discriminate Hoid; try reflexivity|]).
    by apply elem_of_nil in Hv.
Defined.

(** ** The [searchPermissions] validator *)

(** What the [userId] schema does with a value, absent or not. *)
Lemma userId_validate type_uuidv4 scheme_guid objectPerms v :
  Joi.validate (userId_schema type_uuidv4 scheme_guid) (siblingsOf objectPerms) v
  = if Joi.is_true objectPerms then
      match v with
      | None => Joi.Invalid "any.required"
      | Some x => Joi.rules type_uuidv4 (siblingsOf objectPerms) (Some x)
      end
    else Joi.validate scheme_guid (siblingsOf objectPerms) v.
Proof.
  unfold userId_schema, Joi.conditional, Joi.messages.
  assert (siblingsOf objectPerms "objectPerms" = objectPerms) as Hs by done.
  destruct v as [x|]; simpl; rewrite Hs; by destruct (Joi.is_true objectPerms).
Qed.

(** C6. For a query whose other keys are in order: when [objectPerms] is
    [true], a missing [userId] is rejected with a validation error and a
    given one is held against [type.uuidv4], the schema of a single uuid,
    so that an array of user ids is rejected whenever that schema rejects
    arrays; when [objectPerms] is not [true], [userId] is held against
    [scheme.guid], and may be left out whenever that schema lets an absent
    value pass. *)
Theorem searchPermissions_userId
    type_truthy type_uuidv4 scheme_guid scheme_permCode q bucketId objectPerms permCode :
  Joi.validate scheme_guid (λ _, None) (q_bucketId q) = Joi.Valid bucketId →
  Joi.validate type_truthy (λ _, None) (q_objectPerms q) = Joi.Valid objectPerms →
  Joi.validate scheme_permCode (λ _, None) (q_permCode q) = Joi.Valid permCode →
  let run := searchPermissions type_truthy type_uuidv4 scheme_guid scheme_permCode q in
  let accepted u := Accepted (MkPermissionQuery bucketId objectPerms permCode u) in
  (Joi.is_true objectPerms = true →
     (q_userId q = None → run = ValidationError "userId" "any.required") ∧
     (∀ x, q_userId q = Some x →
        run = match Joi.rules type_uuidv4 (siblingsOf objectPerms) (Some x) with
              | Joi.Valid u => accepted u
              | Joi.Invalid code => ValidationError "userId" code
              end) ∧
     (∀ items code,
        Joi.rules type_uuidv4 (siblingsOf objectPerms) (Some (Joi.VArray items))
          = Joi.Invalid code →
        q_userId q = Some (Joi.VArray items) → run = ValidationError "userId" code)) ∧
  (Joi.is_true objectPerms = false →
     run = match Joi.validate scheme_guid (siblingsOf objectPerms) (q_userId q) with
           | Joi.Valid u => accepted u
           | Joi.Invalid code => ValidationError "userId" code
           end ∧
     (Joi.validate scheme_guid (siblingsOf objectPerms) None = Joi.Valid None →
      q_userId q = None → run = accepted None)).
Proof.
  intros Hb Ho Hp run accepted. subst run. unfold searchPermissions.
  rewrite Hb, Ho, Hp, userId_validate. split; intros ->.
  - split; [by intros ->|]. split.
    + intros x ->. done.
    + intros items code Hrej ->. by rewrite Hrej.
  - split; [done|]. intros Hopt ->. by rewrite Hopt.
Qed.

(** C6 on requests: [?objectPerms=true] alone is rejected, with two user
    ids it is rejected, and without [objectPerms] no user id is needed. *)
Lemma searchPermissions_userId_witness :
  let validator := searchPermissions example_truthy example_uuidv4 example_guid example_guid in
  validator (MkPermissionQuery None (Some (Joi.VString "true")) None None)
    = ValidationError "userId" "any.required" ∧
  validator (MkPermissionQuery None (Some (Joi.VString "true")) None
               (Some (Joi.VArray ["u1"; "u2"])))
    = ValidationError "userId" "string.base" ∧
  validator (MkPermissionQuery None None None None)
    = Accepted (MkPermissionQuery None None None None).
Proof.
  intros validator.
  pose proof (searchPermissions_userId example_truthy example_uuidv4 example_guid example_guid
                (MkPermissionQuery None (Some (Joi.VString "true")) None None)
                None (Some (Joi.VBool true)) None eq_refl eq_refl eq_refl) as [H1 _].
  pose proof (searchPermissions_userId example_truthy example_uuidv4 example_guid example_guid
                (MkPermissionQuery None (Some (Joi.VString "true")) None
                   (Some (Joi.VArray ["u1"; "u2"])))
                None (Some (Joi.VBool true)) None eq_refl eq_refl eq_refl) as [H2 _].
  pose proof (searchPermissions_userId example_truthy example_uuidv4 example_guid example_guid
                (MkPermissionQuery None None None None)
                None None None eq_refl eq_refl eq_refl) as [_ H3].
  cbv zeta in *.
  destruct (H1 eq_refl) as [H1' _]. destruct (H2 eq_refl) as (_ & _ & H2').
  destruct (H3 eq_refl) as [_ H3'].
  split; [exact (H1' eq_refl)|]. split; [exact (H2' _ _ eq_refl eq_refl)|].
  exact (H3' eq_refl eq_refl).
Defined.

(** ** The storage service *)

(** C7 (as amended). An [upload] with tags sends the put-object command
    and, once that has succeeded, one tagging command that carries the tags
    as a tag set of key and value, not in the query-string form; when the
    put is rejected no tagging command follows.  An [upload] without tags
    sends the one put-object command.  The query-string form [k1=v1&k2=v2]
    is what [putObject] puts into the [Tagging] of its single command. *)
Theorem upload_commands rejects encodeURIComponent data o received :
  let put := Storage.PutObjectCommand (Storage.baseInput data o) in
  (Storage.upload rejects data o received).2
  = match Storage.tags o with
    | Some t =>
        if rejects put then received ++ [put]
        else received ++
             [put;
              Storage.PutObjectTaggingCommand
                (Storage.withTagging (Storage.baseInput data o) (Storage.TagSet t))]
    | None => received ++ [put]
    end
  ∧ (Storage.putObject rejects encodeURIComponent data o received).2
    = received ++
      [Storage.PutObjectCommand
         match Storage.tags o with
         | Some t =>
             Storage.withTagging (Storage.baseInput data o)
               (Storage.UrlEncoded (Storage.urlEncodeTags encodeURIComponent t))
         | None => Storage.baseInput data o
         end].
Proof.
  split.
  - unfold Storage.upload, mbind, Storage.S_bind, Storage.send.
    destruct (rejects _) eqn:Hput; simpl.
    + by destruct (Storage.tags o).
    + destruct (Storage.tags o) as [t|]; simpl; [|done].
      destruct (rejects (Storage.PutObjectTaggingCommand _)); simpl;
        symmetry; apply (app_assoc received [_] [_]).
  - unfold Storage.putObject, Storage.send. by destruct (rejects _).
Qed.

(** C7 as stated fails: the tagging command of an [upload] with the tags
    [{ foo: 'bar' }] carries the tag set, while the query-string form of
    these tags is ["foo=bar"]. *)
Lemma upload_tagging_counterexample :
  let base := Storage.baseInput Storage.test_bucket
                (Storage.test_options (Some [("foo", "bar")])) in
  Storage.upload Storage.accepts_all Storage.test_bucket
    (Storage.test_options (Some [("foo", "bar")])) []
  = (Ok (),
     [Storage.PutObjectCommand base;
      Storage.PutObjectTaggingCommand
        (Storage.withTagging base (Storage.TagSet [("foo", "bar")]))]) ∧
  Storage.urlEncodeTags (λ s, s) [("foo", "bar")] = "foo=bar" ∧
  Storage.Tagging (Storage.withTagging base (Storage.TagSet [("foo", "bar")]))
  ≠ Some (Storage.UrlEncoded "foo=bar").
Proof. split; [reflexivity|]. split; [reflexivity|]. discriminate. Qed.

(** ** The user service *)

Section UserClaims.
Import UserService.

(** What [createUser] does, case by case. *)
Lemma createUser_run uuidv4 d s :
  let run := createUser uuidv4 d s in
  let row := MkUserRow (uuidv4 (drawn s)) d in
  run.1 = Ok row ∧ user run.2 = user s ++ [row] ∧
  match idp d with
  | None =>
      identity_provider run.2 = identity_provider s ∧
      calls run.2 = calls s ++ [CreateUser d; UserInsertAndFetch row]
  | Some c =>
      match List.find (λ r, bool_decide (code r = c)) (identity_provider s) with
      | Some _ =>
          identity_provider run.2 = identity_provider s ∧
          calls run.2 = calls s ++ [CreateUser d; ReadIdp c; UserInsertAndFetch row]
      | None =>
          identity_provider run.2 = identity_provider s ++ [MkIdpRow c SYSTEM_USER] ∧
          calls run.2 =
            calls s ++
            [CreateUser d; ReadIdp c; CreateIdp c;
             IdpInsertAndFetch (MkIdpRow c SYSTEM_USER); UserInsertAndFetch row]
      end
  end.
Proof.
  unfold createUser, readIdp, createIdp, spy, idpFindById, idpInsertAndFetch,
    userInsertAndFetch, mbind, U_bind, mret, U_ret.
  destruct (idp d) as [c|]; simpl.
  - destruct (List.find _ (identity_provider s)); simpl;
      rewrite <- ?app_assoc; done.
  - rewrite <- ?app_assoc. done.
Qed.

(** C8. [createUser] always inserts the user.  For a user without idp it
    neither looks up nor creates an IdentityProvider row.  For a user with
    an idp code it looks the code up once; when the code has a row none is
    created; when it has none, exactly one row, for that code, is created,
    and this happens before the user is inserted. *)
Theorem createUser_identity_provider uuidv4 d s :
  let run := createUser uuidv4 d s in
  let row := MkUserRow (uuidv4 (drawn s)) d in
  run.1 = Ok row ∧ user run.2 = user s ++ [row] ∧
  match idp d with
  | None =>
      identity_provider run.2 = identity_provider s ∧
      calls run.2 = calls s ++ [CreateUser d; UserInsertAndFetch row] ∧
      times is_idp_call [CreateUser d; UserInsertAndFetch row] = 0
  | Some c =>
      match List.find (λ r, bool_decide (code r = c)) (identity_provider s) with
      | Some _ =>
          identity_provider run.2 = identity_provider s ∧
          calls run.2 = calls s ++ [CreateUser d; ReadIdp c; UserInsertAndFetch row]
      | None =>
          identity_provider run.2 = identity_provider s ++ [MkIdpRow c SYSTEM_USER] ∧
          calls run.2 =
            calls s ++
            [CreateUser d; ReadIdp c; CreateIdp c;
             IdpInsertAndFetch (MkIdpRow c SYSTEM_USER); UserInsertAndFetch row]
      end
  end.
Proof.
  pose proof (createUser_run uuidv4 d s) as (H1 & H2 & H3). cbv zeta.
  split; [exact H1|]. split; [exact H2|].
  destruct (idp d) as [c|]; [exact H3|].
  destruct H3 as [? ?]. done.
Qed.

(** C8 on the user of the unit tests and on the system user. *)
Lemma createUser_identity_provider_witness :
  identity_provider (createUser test_uuidv4 test_user empty_state).2
    = [MkIdpRow "idir" SYSTEM_USER] ∧
  identity_provider (createUser test_uuidv4 test_user known_state).2
    = identity_provider known_state ∧
  times is_idp_call (calls (createUser test_uuidv4 system_user empty_state).2) = 0 ∧
  length (user (createUser test_uuidv4 system_user empty_state).2) = 1.
Proof.
  pose proof (createUser_identity_provider test_uuidv4 test_user empty_state) as H1.
  pose proof (createUser_identity_provider test_uuidv4 test_user known_state) as H2.
  pose proof (createUser_identity_provider test_uuidv4 system_user empty_state) as H3.
  cbv zeta in *. simpl idp in *. simpl List.find in *.
  destruct H1 as (_ & _ & H1 & _), H2 as (_ & _ & H2 & _), H3 as (_ & H3u & _ & H3 & _).
  split; [exact H1|]. split; [exact H2|]. split.
  - rewrite H3. reflexivity.
  - rewrite H3u. reflexivity.
Defined.

(** C9. [login] looks the user up by [identityId].  When there is none it
    calls [createUser], once, and never [updateUser]; when there is one it
    calls [updateUser], once, and never [createUser].  And [updateUser]
    with fields identical to those of the stored user writes nothing: no
    patch, no insert, the tables as before. *)
Theorem login_dispatch uuidv4 (Token : Type) (tokenToUser : Token → UserData) token s :
  let newUser := tokenToUser token in
  let run := login uuidv4 Token tokenToUser token s in
  (∃ new, calls run.2 = calls s ++ new ∧
     match List.find (λ r, bool_decide (identityId (data r) = identityId newUser))
             (user s) with
     | None => times is_createUser new = 1 ∧ times is_updateUser new = 0
     | Some _ => times is_createUser new = 0 ∧ times is_updateUser new = 1
     end) ∧
  (∀ userId stored,
     List.find (λ r, bool_decide (UserService.userId r = userId)) (user s) = Some stored →
     data stored = newUser →
     let upd := updateUser userId newUser s in
     upd.1 = Ok stored ∧
     user upd.2 = user s ∧ identity_provider upd.2 = identity_provider s ∧
     calls upd.2 = calls s ++ [UpdateUser userId newUser; ReadUser userId] ∧
     times is_write [UpdateUser userId newUser; ReadUser userId] = 0).
Proof.
  intros newUser run. split.
  - subst run. unfold login. fold newUser.
    unfold mbind at 1. unfold U_bind, userFirstByIdentityId. simpl.
    destruct (List.find _ (user s)) as [old|] eqn:Hfind.
    + (* a user is there: updateUser *)
      unfold updateUser, readUser, spy, userFindById, userPatchAndFetchById,
        mbind, U_bind, mret, U_ret. simpl.
      destruct (List.find (λ r, bool_decide (UserService.userId r = UserService.userId old))
                  (user s)) as [row|]; simpl.
      * destruct (decide (data row ≠ newUser)); simpl.
        -- eexists. rewrite <- !app_assoc. split; [reflexivity|]. done.
        -- eexists. rewrite <- !app_assoc. split; [reflexivity|]. done.
      * eexists. rewrite <- !app_assoc. split; [reflexivity|]. done.
    + (* no user: createUser *)
      pose proof (createUser_run uuidv4 newUser
                    (MkState (identity_provider s) (user s) (drawn s)
                       (calls s ++ [UserFirstByIdentityId (identityId newUser)])))
        as (_ & _ & H).
      cbv zeta in H. simpl in H.
      destruct (idp newUser) as [c|].
      * destruct (List.find _ (identity_provider s)); destruct H as [_ ->];
          eexists; rewrite <- !app_assoc; (split; [reflexivity|]); done.
      * destruct H as [_ ->]. eexists. rewrite <- !app_assoc.
        split; [reflexivity|]. done.
  - intros userId stored Hfind Hsame.
    unfold updateUser, readUser, spy, userFindById, mbind, U_bind, mret, U_ret. simpl.
    rewrite Hfind. simpl. rewrite decide_False by (intros Hne; by apply Hne).
    simpl. rewrite <- !app_assoc. done.
Qed.

(** C9 on the unit tests: a first login creates, a second login with the
    same claims updates and writes nothing. *)
Lemma login_dispatch_witness :
  let first := login test_uuidv4 UserData (λ d, d) test_user empty_state in
  let again := login test_uuidv4 UserData (λ d, d) test_user known_state in
  (∃ new, calls first.2 = calls empty_state ++ new ∧
          times is_createUser new = 1 ∧ times is_updateUser new = 0) ∧
  (∃ new, calls again.2 = calls known_state ++ new ∧
          times is_createUser new = 0 ∧ times is_updateUser new = 1) ∧
  user (updateUser "a96f2809-d6f4-4cef-a02a-3f72edff06d7" test_user known_state).2
    = user known_state.
Proof.
  intros first again.
  pose proof (login_dispatch test_uuidv4 UserData (λ d, d) test_user empty_state) as [H1 _].
  pose proof (login_dispatch test_uuidv4 UserData (λ d, d) test_user known_state) as [H2 H3].
  split; [exact H1|]. split; [exact H2|].
  destruct (H3 "a96f2809-d6f4-4cef-a02a-3f72edff06d7"
              (MkUserRow "a96f2809-d6f4-4cef-a02a-3f72edff06d7" test_user)
              eq_refl eq_refl) as (_ & Hu & _).
  exact Hu.
Defined.

End UserClaims.

(** * Further properties *)

Lemma filter_none {X} (P : X → Prop) `{∀ x, Decision (P x)} (l : list X) :
  (∀ x, x ∈ l → ¬ P x) → filter P l = [].
Proof.
  induction l as [|x l IH]; intros Hn; [done|].
  rewrite filter_cons, decide_False by (apply Hn; left).
  apply IH. intros y Hy. apply Hn. by right.
Qed.

Lemma filter_all {X} (P : X → Prop) `{∀ x, Decision (P x)} (l : list X) :
  (∀ x, x ∈ l → P x) → filter P l = l.
Proof.
  induction l as [|x l IH]; intros Hn; [done|].
  rewrite filter_cons, decide_True by (apply Hn; left).
  f_equal. apply IH. intros y Hy. apply Hn. by right.
Qed.

(** ** [createMetadata] *)

Lemma getObjectsByKeyValue_Some all k v found :
  getObjectsByKeyValue all k v = Some found →
  found ∈ all ∧ keyValue found = (k, v).
Proof.
  unfold getObjectsByKeyValue. intros H. apply List.find_some in H as [Hin Hb].
  apply bool_decide_eq_true in Hb as [Hk Hv]. split.
  - by apply list_elem_of_In.
  - unfold keyValue. by rewrite Hk, Hv.
Qed.

Lemma getObjectsByKeyValue_None all k v :
  getObjectsByKeyValue all k v = None ↔ (k, v) ∉ keyValue <$> all.
Proof.
  unfold getObjectsByKeyValue. split.
  - intros H Hin. apply list_elem_of_fmap in Hin as (m & Heq & Hm).
    apply list_elem_of_In in Hm.
    pose proof (List.find_none _ _ H m Hm) as Hb. simpl in Hb.
    apply bool_decide_eq_false in Hb. apply Hb.
    unfold keyValue in Heq. by injection Heq as -> ->.
  - intros Hn. destruct (List.find _ all) as [found|] eqn:Hf; [|done].
    exfalso. apply Hn.
    destruct (getObjectsByKeyValue_Some all k v found Hf) as [Hin Hkv].
    apply list_elem_of_fmap. by exists found.
Qed.

Lemma sortMetadata_new all incoming :
  (sortMetadata all incoming).2 = filter (λ kv, kv ∉ keyValue <$> all) incoming.
Proof.
  induction incoming as [|[k v] rest IH]; [done|]. simpl.
  destruct (sortMetadata all rest) as [ex nw]. simpl in IH.
  rewrite filter_cons.
  destruct (getObjectsByKeyValue all k v) as [found|] eqn:Hf; simpl.
  - apply getObjectsByKeyValue_Some in Hf as [Hin Hkv].
    rewrite decide_False; [done|]. intros Hn. apply Hn.
    apply list_elem_of_fmap. by exists found.
  - apply getObjectsByKeyValue_None in Hf. rewrite decide_True by done.
    by rewrite IH.
Qed.

Lemma sortMetadata_existing all incoming m :
  m ∈ (sortMetadata all incoming).1 → m ∈ all ∧ keyValue m ∈ incoming.
Proof.
  induction incoming as [|[k v] rest IH]; simpl.
  { by intros ?%elem_of_nil. }
  destruct (sortMetadata all rest) as [ex nw]. simpl in IH.
  destruct (getObjectsByKeyValue all k v) as [found|] eqn:Hf; simpl.
  - apply getObjectsByKeyValue_Some in Hf as [Hin Hkv].
    intros [->|Hm]%elem_of_cons.
    + unfold keyValue in Hkv. injection Hkv as <- <-.
      destruct found. simpl. split; [done | left].
    + destruct (IH Hm). split; [done | by right].
  - intros Hm. destruct (IH Hm). split; [done | by right].
Qed.

Lemma number_rows_length next kvs : length (number_rows next kvs) = length kvs.
Proof.
  revert next. induction kvs as [|[k v] kvs IH]; intros next; simpl; [done|].
  by rewrite IH.
Qed.

Lemma number_rows_ids next kvs m :
  m ∈ number_rows next kvs → (next ≤ Metadata.id m)%Z.
Proof.
  revert next. induction kvs as [|[k v] kvs IH]; intros next; simpl.
  { by intros ?%elem_of_nil. }
  intros [->|Hm]%elem_of_cons; simpl; [lia|].
  apply IH in Hm. lia.
Qed.

Lemma number_rows_keyValue next kvs : keyValue <$> number_rows next kvs = kvs.
Proof.
  revert next. induction kvs as [|[k v] kvs IH]; intros next; simpl; [done|].
  by rewrite IH.
Qed.

(** The tables after [createMetadata]: the former ones with one new row
    per unknown item appended. *)
Lemma tb_createMetadata_tables incoming tb :
  (tb_createMetadata incoming tb).2
  = MkTables (object tb) (version tb)
      (metadata tb ++ number_rows (metadata_id_seq tb) (unknownPairs tb incoming))
      (version_metadata tb)
      (metadata_id_seq tb + Z.of_nat (length (unknownPairs tb incoming))).
Proof.
  unfold tb_createMetadata, unknownPairs.
  rewrite <- (sortMetadata_new (metadata tb) incoming).
  destruct (sortMetadata (metadata tb) incoming) as [ex nw]. simpl.
  destruct (decide (nw ≠ [])) as [Hn|Hn]; simpl; [done|].
  apply dec_stable in Hn. subst nw. simpl.
  rewrite app_nil_r, Z.add_0_r. by destruct tb.
Qed.

Lemma tb_createMetadata_answer incoming tb m :
  m ∈ (tb_createMetadata incoming tb).1 → m ∈ metadata (tb_createMetadata incoming tb).2.
Proof.
  rewrite tb_createMetadata_tables. simpl.
  unfold tb_createMetadata, unknownPairs.
  rewrite <- (sortMetadata_new (metadata tb) incoming).
  pose proof (sortMetadata_existing (metadata tb) incoming m) as Hex.
  destruct (sortMetadata (metadata tb) incoming) as [ex nw]. simpl in *.
  destruct (decide (nw ≠ [])) as [Hn|Hn]; simpl.
  - intros [Hm|Hm]%elem_of_app; apply elem_of_app; [left; by apply Hex | by right].
  - intros Hm. apply elem_of_app. left. by apply Hex.
Qed.

Section ExtraEffects.
Variable fault : DbCall → World → bool.

Lemma createMetadata_effect incoming etrx w r w' tb :
  createMetadata fault incoming etrx w = (Ok r, w') →
  target etrx w = Some tb →
  r = (tb_createMetadata incoming tb).1 ∧
  target etrx w' = Some (tb_createMetadata incoming tb).2.
Proof.
  intros Hrun Ht.
  eapply (withTransaction_effect fault _ _ etrx w r w' tb); [|exact Hrun|exact Ht].
  intros t. apply (createMetadata_in_trx fault incoming t).
Qed.

End ExtraEffects.

(** X1. A successful [createMetadata] only appends to the metadata table:
    one new row, with the next ids of the sequence, for every incoming item
    that has no row yet, in order and without merging repeated items; the
    other tables stay, and every row it answers is a row of the table. *)
Theorem createMetadata_appends fault incoming etrx w r w' tb :
  createMetadata fault incoming etrx w = (Ok r, w') →
  target etrx w = Some tb →
  let fresh := number_rows (metadata_id_seq tb) (unknownPairs tb incoming) in
  target etrx w'
    = Some (MkTables (object tb) (version tb) (metadata tb ++ fresh)
              (version_metadata tb)
              (metadata_id_seq tb + Z.of_nat (length (unknownPairs tb incoming)))) ∧
  keyValue <$> fresh = unknownPairs tb incoming ∧
  (∀ m, m ∈ fresh → (metadata_id_seq tb ≤ Metadata.id m)%Z) ∧
  (∀ m, m ∈ r → m ∈ metadata tb ++ fresh).
Proof.
  intros Hrun Ht fresh.
  destruct (createMetadata_effect _ _ _ _ _ _ _ Hrun Ht) as [-> Hw'].
  rewrite tb_createMetadata_tables in Hw'. split; [exact Hw'|].
  split; [apply number_rows_keyValue|]. split; [apply number_rows_ids|].
  intros m Hm. apply tb_createMetadata_answer in Hm.
  by rewrite tb_createMetadata_tables in Hm.
Qed.

Lemma createMetadata_appends_witness :
  let run := createMetadata no_fault [("c", "3"); ("a", "1"); ("c", "3")] None example_world in
  let fresh := number_rows 3 [("c", "3"); ("c", "3")] in
  target None run.2
    = Some (MkTables [] [] (metadata example_tables ++ fresh)
              (version_metadata example_tables) 5) ∧
  keyValue <$> fresh = [("c", "3"); ("c", "3")] ∧
  (∀ m, m ∈ fresh → (3 ≤ Metadata.id m)%Z) ∧
  (∀ m, m ∈ [Metadata.Row 1 "a" "1"; Metadata.Row 3 "c" "3"; Metadata.Row 4 "c" "3"] →
        m ∈ metadata example_tables ++ fresh).
Proof.
  intros run.
  apply (createMetadata_appends no_fault [("c", "3"); ("a", "1"); ("c", "3")] None
           example_world
           [Metadata.Row 1 "a" "1"; Metadata.Row 3 "c" "3"; Metadata.Row 4 "c" "3"]
           run.2 example_tables).
  - vm_compute. reflexivity.
  - reflexivity.
Defined.

Lemma unknownPairs_after incoming tb :
  unknownPairs (tb_createMetadata incoming tb).2 incoming = [].
Proof.
  rewrite tb_createMetadata_tables. unfold unknownPairs at 1. simpl.
  apply filter_none. intros kv Hkv Hn. apply Hn.
  rewrite fmap_app, number_rows_keyValue. apply elem_of_app.
  destruct (decide (kv ∈ keyValue <$> metadata tb)) as [|Hu]; [by left|].
  right. by apply list_elem_of_filter.
Qed.

(** X2. [createMetadata] is idempotent on the tables: run again with the
    same items after it succeeded, it finds every item and leaves the
    tables it works on exactly as the first run left them. *)
Theorem createMetadata_twice fault incoming etrx w r1 w1 r2 w2 tb :
  createMetadata fault incoming etrx w = (Ok r1, w1) →
  createMetadata fault incoming etrx w1 = (Ok r2, w2) →
  target etrx w = Some tb →
  target etrx w2 = target etrx w1 ∧ (∀ m, m ∈ r2 → keyValue m ∈ incoming).
Proof.
  intros H1 H2 Ht.
  destruct (createMetadata_effect _ _ _ _ _ _ _ H1 Ht) as [_ Hw1].
  destruct (createMetadata_effect _ _ _ _ _ _ _ H2 Hw1) as [-> Hw2].
  rewrite Hw2, Hw1. split.
  - f_equal. rewrite (tb_createMetadata_tables incoming (tb_createMetadata incoming tb).2).
    rewrite unknownPairs_after. simpl. rewrite app_nil_r, Z.add_0_r.
    by destruct (tb_createMetadata incoming tb).2.
  - intros m Hm. unfold tb_createMetadata in Hm.
    pose proof (sortMetadata_new (metadata (tb_createMetadata incoming tb).2) incoming) as Hnew.
    fold (unknownPairs (tb_createMetadata incoming tb).2 incoming) in Hnew.
    rewrite unknownPairs_after in Hnew.
    pose proof (sortMetadata_existing (metadata (tb_createMetadata incoming tb).2) incoming m)
      as Hex.
    destruct (sortMetadata _ incoming) as [ex nw]. simpl in *. subst nw.
    simpl in Hm. by apply Hex.
Qed.

Lemma createMetadata_twice_witness :
  let first := createMetadata no_fault [("c", "3"); ("c", "3")] None example_world in
  let again := createMetadata no_fault [("c", "3"); ("c", "3")] None first.2 in
  target None again.2 = target None first.2 ∧
  (∀ m, m ∈ [Metadata.Row 3 "c" "3"; Metadata.Row 3 "c" "3"] →
        keyValue m ∈ [("c", "3"); ("c", "3")]).
Proof.
  intros first again.
  apply (createMetadata_twice no_fault [("c", "3"); ("c", "3")] None example_world
           [Metadata.Row 3 "c" "3"; Metadata.Row 4 "c" "3"] first.2
           [Metadata.Row 3 "c" "3"; Metadata.Row 3 "c" "3"] again.2 example_tables).
  - vm_compute. reflexivity.
  - vm_compute. reflexivity.
  - reflexivity.
Defined.

(** ** [pruneOrphanedMetadata] *)

Lemma filter_length_split {X} (P : X → Prop) `{∀ x, Decision (P x)} (l : list X) :
  length l = length (filter P l) + length (filter (λ x, ¬ P x) l).
Proof.
  rewrite <- length_app. apply Permutation_length. symmetry.
  apply filter_app_complement.
Qed.

(** X3. The number [pruneOrphanedMetadata] answers is the number of
    metadata rows it removed, and on tables without orphans it removes
    nothing and answers 0; so pruning twice is pruning once. *)
Theorem pruneOrphanedMetadata_count fault etrx w n w' tb :
  pruneOrphanedMetadata fault etrx w = (Ok n, w') →
  target etrx w = Some tb →
  ∃ tb', target etrx w' = Some tb' ∧
    length (metadata tb) = n + length (metadata tb') ∧
    noOrphans tb' ∧
    (noOrphans tb → n = 0 ∧ tb' = tb).
Proof.
  intros Hrun Ht.
  destruct (pruneOrphanedMetadata_effect _ _ _ _ _ _ Hrun Ht) as [-> Hw'].
  eexists. split; [exact Hw'|].
  set (ids := (sql_select_orphaned_metadata tb).1).
  assert (Hkeep : ∀ m, m ∈ metadata tb → referenced (version_metadata tb) m →
                       Metadata.id m ∉ ids).
  { intros m Hm Hr Hin. subst ids. simpl in Hin.
    apply list_elem_of_fmap in Hin as (m' & Heq & Hm').
    apply list_elem_of_filter in Hm' as [Hu _]. apply Hu.
    unfold referenced in *. by rewrite <- Heq. }
  split; [|split].
  - unfold tb_pruneOrphanedMetadata. simpl. fold ids.
    rewrite (filter_length_split (λ m, Metadata.id m ∈ ids) (metadata tb)). done.
  - intros m Hm. rewrite tb_pruneOrphanedMetadata_metadata in Hm.
    by apply list_elem_of_filter in Hm as [? _].
  - intros Hno. unfold tb_pruneOrphanedMetadata. simpl. fold ids. split.
    + rewrite filter_none; [done|]. intros m Hm Hin.
      by apply (Hkeep m Hm (Hno m Hm)).
    + unfold set_metadata. rewrite filter_all; [by destruct tb|].
      intros m Hm. by apply Hkeep, Hno.
Qed.

Lemma pruneOrphanedMetadata_count_witness :
  let run := pruneOrphanedMetadata no_fault None (MkWorld orphan_tables [] []) in
  ∃ tb', target None run.2 = Some tb' ∧
    length (metadata orphan_tables) = 1 + length (metadata tb') ∧
    noOrphans tb' ∧
    (noOrphans orphan_tables → 1 = 0 ∧ tb' = orphan_tables).
Proof.
  intros run.
  apply (pruneOrphanedMetadata_count no_fault None (MkWorld orphan_tables [] []) 1 run.2
           orphan_tables).
  - vm_compute. reflexivity.
  - reflexivity.
Defined.

(** ** [associateMetadata] *)

Lemma tb_createMetadata_answer_split incoming tb :
  (tb_createMetadata incoming tb).1
  = (sortMetadata (metadata tb) incoming).1
    ++ number_rows (metadata_id_seq tb) (unknownPairs tb incoming).
Proof.
  unfold tb_createMetadata, unknownPairs.
  rewrite <- (sortMetadata_new (metadata tb) incoming).
  destruct (sortMetadata (metadata tb) incoming) as [ex nw]. simpl.
  destruct (decide (nw ≠ [])) as [Hn|Hn]; simpl; [done|].
  apply dec_stable in Hn. subst nw. simpl. by rewrite app_nil_r.
Qed.

Lemma tb_join_answer versionId currentUserId joins tb :
  (tb_join versionId currentUserId joins tb).1
  = (λ m, VersionMetadata.Row versionId (Metadata.id m) currentUserId) <$> joins.
Proof.
  unfold tb_join. destruct (decide (joins ≠ [])) as [Hj|Hj]; [done|].
  apply dec_stable in Hj. by subst.
Qed.

Lemma tb_join_metadata versionId currentUserId joins tb :
  metadata (tb_join versionId currentUserId joins tb).2 = metadata tb.
Proof. unfold tb_join. by destruct (decide (joins ≠ [])). Qed.

Lemma tb_dissociate_nothing versionId dbMetadata tb :
  dissociateMetadata dbMetadata (filterVersionId versionId (version_metadata tb)) = [] →
  tb_dissociate versionId dbMetadata tb = tb.
Proof.
  intros Hd. unfold tb_dissociate. rewrite Hd.
  destruct (decide _); [|done]. by rewrite decide_False by (intros Hn; by apply Hn).
Qed.

Lemma referenced_app vms rows m : referenced vms m → referenced (vms ++ rows) m.
Proof. unfold referenced. rewrite fmap_app, elem_of_app. by left. Qed.

(** X4. Associating again what is already associated changes nothing: when
    every incoming item has a metadata row and the version is joined to
    exactly the ids [createMetadata] resolves for them, a successful
    [associateMetadata] neither deletes nor inserts and answers the empty
    list. *)
Theorem associateMetadata_again fault versionId incoming currentUserId etrx w r w' tb :
  associateMetadata fault versionId (Some incoming) currentUserId etrx w = (Ok r, w') →
  target etrx w = Some tb →
  unknownPairs tb incoming = [] →
  joinedMetadataIds versionId tb
    = list_to_set (Metadata.id <$> (tb_createMetadata incoming tb).1) →
  r = [] ∧ target etrx w' = Some tb.
Proof.
  intros Hrun Ht Hknown Hjoined.
  destruct (associateMetadata_effect _ _ _ _ _ _ _ _ _ Hrun Ht) as [-> Hw'].
  rewrite Hw'. clear Hrun Hw' Ht w w'.
  unfold tb_associateMetadata. destruct incoming as [|kv rest]; [done|].
  set (inc := kv :: rest) in *.
  assert (Htb : (tb_createMetadata inc tb).2 = tb).
  { rewrite tb_createMetadata_tables, Hknown. simpl.
    rewrite app_nil_r, Z.add_0_r. by destruct tb. }
  rewrite Htb.
  set (db := (tb_createMetadata inc tb).1) in *.
  set (assoc := filterVersionId versionId (version_metadata tb)).
  assert (Hids : ∀ x, x ∈ VersionMetadata.metadataId <$> assoc ↔ x ∈ Metadata.id <$> db).
  { intros x. unfold joinedMetadataIds in Hjoined. fold assoc in Hjoined.
    rewrite <- (elem_of_list_to_set (C:=gset Z) x (VersionMetadata.metadataId <$> assoc)).
    rewrite Hjoined. apply elem_of_list_to_set. }
  assert (Hd : dissociateMetadata db assoc = []).
  { apply filter_none. intros vm Hvm Hn. apply Hn, Hids.
    apply list_elem_of_fmap. by exists vm. }
  assert (Hj : newJoins db assoc = []).
  { unfold newJoins. destruct (decide (assoc ≠ [])) as [Ha|Ha].
    - apply filter_none. intros m Hm Hn. apply Hn, Hids.
      apply list_elem_of_fmap. by exists m.
    - apply dec_stable in Ha. destruct db as [|m db']; [done|].
      assert (Metadata.id m ∈ VersionMetadata.metadataId <$> assoc) as Hin.
      { apply Hids. simpl. left. }
      rewrite Ha in Hin. by apply elem_of_nil in Hin. }
  rewrite Hj, tb_dissociate_nothing by done. done.
Qed.

Lemma associateMetadata_again_witness :
  let run := associateMetadata no_fault 8%N (Some [("b", "2"); ("a", "1")]) None None
               example_world in
  run.1 = Ok [] ∧ target None run.2 = Some example_tables.
Proof.
  intros run.
  destruct (associateMetadata_again no_fault 8%N [("b", "2"); ("a", "1")] None None
              example_world [] run.2 example_tables) as [_ H].
  - vm_compute. reflexivity.
  - reflexivity.
  - vm_compute. reflexivity.
  - unfold joinedMetadataIds.
    assert (VersionMetadata.metadataId
              <$> filterVersionId 8%N (version_metadata example_tables) = [1%Z; 2%Z])
      as -> by (vm_compute; reflexivity).
    assert (Metadata.id <$> (tb_createMetadata [("b", "2"); ("a", "1")] example_tables).1
            = [2%Z; 1%Z]) as -> by (vm_compute; reflexivity).
    set_solver.
  - split; [reflexivity | exact H].
Defined.

Lemma tb_createMetadata_keyValue incoming tb kv :
  kv ∈ incoming → ∃ m, m ∈ (tb_createMetadata incoming tb).1 ∧ keyValue m = kv.
Proof.
  intros Hkv. pose proof (tb_createMetadata_kv incoming tb) as Hp.
  rewrite <- Hp in Hkv. apply list_elem_of_fmap in Hkv as (m & -> & Hm).
  by exists m.
Qed.

(** X5. The first association of a version.  When the version has no join
    yet, a successful [associateMetadata] with a non-empty set deletes
    nothing: it appends one join per resolved row to the joins, answers
    exactly these, and afterwards every incoming item has a metadata row in
    the table that is joined to the version. *)
Theorem associateMetadata_first fault versionId kv rest currentUserId etrx w r w' tb :
  associateMetadata fault versionId (Some (kv :: rest)) currentUserId etrx w = (Ok r, w') →
  target etrx w = Some tb →
  filterVersionId versionId (version_metadata tb) = [] →
  ∃ tb', target etrx w' = Some tb' ∧
    version_metadata tb' = version_metadata tb ++ r ∧
    (∀ m, m ∈ metadata tb → m ∈ metadata tb') ∧
    (∀ item, item ∈ kv :: rest →
       ∃ m, m ∈ metadata tb' ∧ keyValue m = item ∧
            VersionMetadata.Row versionId (Metadata.id m)
              (default SYSTEM_USER currentUserId) ∈ r).
Proof.
  intros Hrun Ht Hnone.
  destruct (associateMetadata_effect _ _ _ _ _ _ _ _ _ Hrun Ht) as [-> Hw'].
  eexists. split; [exact Hw'|]. clear Hrun Hw' Ht w w'.
  unfold tb_associateMetadata.
  set (inc := kv :: rest). set (db := (tb_createMetadata inc tb).1).
  rewrite tb_createMetadata_version_metadata, Hnone.
  assert (Hd : tb_dissociate versionId db (tb_createMetadata inc tb).2
               = (tb_createMetadata inc tb).2).
  { apply tb_dissociate_nothing.
    by rewrite tb_createMetadata_version_metadata, Hnone. }
  rewrite Hd. assert (newJoins db [] = db) as -> by done.
  rewrite tb_join_version_metadata, tb_join_answer, tb_join_metadata,
    tb_createMetadata_version_metadata.
  split; [done|]. split; [apply tb_createMetadata_metadata|].
  intros item Hitem.
  destruct (tb_createMetadata_keyValue inc tb item Hitem) as (m & Hm & Hkv).
  exists m. split; [by apply tb_createMetadata_answer|]. split; [done|].
  apply list_elem_of_fmap. by exists m.
Qed.

Lemma associateMetadata_first_witness :
  let run := associateMetadata no_fault 9%N (Some [("a", "1"); ("c", "3")]) (Some 5%N) None
               example_world in
  let r := [VersionMetadata.Row 9%N 1 5%N; VersionMetadata.Row 9%N 3 5%N] in
  ∃ tb', target None run.2 = Some tb' ∧
    version_metadata tb' = version_metadata example_tables ++ r ∧
    (∀ m, m ∈ metadata example_tables → m ∈ metadata tb') ∧
    (∀ item, item ∈ [("a", "1"); ("c", "3")] →
       ∃ m, m ∈ metadata tb' ∧ keyValue m = item ∧
            VersionMetadata.Row 9%N (Metadata.id m) (default SYSTEM_USER (Some 5%N)) ∈ r).
Proof.
  intros run r.
  apply (associateMetadata_first no_fault 9%N ("a", "1") [("c", "3")] (Some 5%N) None
           example_world r run.2 example_tables).
  - vm_compute. reflexivity.
  - reflexivity.
  - reflexivity.
Defined.

(** X6. What [associateMetadata] answers.  After a successful call with a
    non-empty set the answer lists exactly the joins it inserted: one for
    every resolved metadata id the version was not joined to before, each
    for this version and created by the acting user, the system user when
    none is given. *)
Theorem associateMetadata_answer fault versionId kv rest currentUserId etrx w r w' tb :
  associateMetadata fault versionId (Some (kv :: rest)) currentUserId etrx w = (Ok r, w') →
  target etrx w = Some tb →
  let resolved := Metadata.id <$> (tb_createMetadata (kv :: rest) tb).1 in
  let before := VersionMetadata.metadataId <$> filterVersionId versionId (version_metadata tb) in
  (∀ row, row ∈ r →
     VersionMetadata.versionId row = versionId ∧
     VersionMetadata.createdBy row = default SYSTEM_USER currentUserId ∧
     VersionMetadata.metadataId row ∈ resolved ∧
     VersionMetadata.metadataId row ∉ before) ∧
  (∀ x, x ∈ resolved → x ∉ before → x ∈ VersionMetadata.metadataId <$> r).
Proof.
  intros Hrun Ht resolved before.
  destruct (associateMetadata_effect _ _ _ _ _ _ _ _ _ Hrun Ht) as [-> _].
  clear Hrun Ht w w'. unfold tb_associateMetadata.
  rewrite tb_join_answer, tb_createMetadata_version_metadata.
  fold before. split.
  - intros row Hrow. apply list_elem_of_fmap in Hrow as (m & -> & Hm). simpl.
    split; [done|]. split; [done|].
    apply newJoins_ids. apply list_elem_of_fmap. by exists m.
  - intros x Hx Hn.
    assert (x ∈ Metadata.id <$> newJoins (tb_createMetadata (kv :: rest) tb).1
                  (filterVersionId versionId (version_metadata tb))) as Hin
      by by apply newJoins_ids.
    apply list_elem_of_fmap in Hin as (m & -> & Hm).
    apply list_elem_of_fmap.
    exists (VersionMetadata.Row versionId (Metadata.id m) (default SYSTEM_USER currentUserId)).
    split; [done|]. apply list_elem_of_fmap. by exists m.
Qed.

Lemma associateMetadata_answer_witness :
  let run := associateMetadata no_fault 7%N (Some [("a", "1"); ("b", "2")]) None None
               example_world in
  let r := [VersionMetadata.Row 7%N 2 0%N] in
  let resolved := Metadata.id <$> (tb_createMetadata [("a", "1"); ("b", "2")] example_tables).1 in
  let before :=
    VersionMetadata.metadataId <$> filterVersionId 7%N (version_metadata example_tables) in
  (∀ row, row ∈ r →
     VersionMetadata.versionId row = 7%N ∧
     VersionMetadata.createdBy row = default SYSTEM_USER None ∧
     VersionMetadata.metadataId row ∈ resolved ∧
     VersionMetadata.metadataId row ∉ before) ∧
  (∀ x, x ∈ resolved → x ∉ before → x ∈ VersionMetadata.metadataId <$> r).
Proof.
  intros run r.
  apply (associateMetadata_answer no_fault 7%N ("a", "1") [("b", "2")] None None
           example_world r run.2 example_tables).
  - vm_compute. reflexivity.
  - reflexivity.
Defined.




(** X8. [associateMetadata] keeps the tables free of orphans: when no
    metadata row is without a join before a successful call, none is after
    it, whatever the incoming set, empty included.  (Joins are taken to
    carry ids the sequence has given out.) *)
Theorem associateMetadata_keeps_noOrphans
    fault versionId incoming currentUserId etrx w r w' tb :
  associateMetadata fault versionId incoming currentUserId etrx w = (Ok r, w') →
  target etrx w = Some tb →
  noOrphans tb →
  joinsBelowSequence tb →
  ∃ tb', target etrx w' = Some tb' ∧ noOrphans tb'.
Proof.
  intros Hrun Ht Hno Hbelow.
  destruct (associateMetadata_effect _ _ _ _ _ _ _ _ _ Hrun Ht) as [_ Hw'].
  eexists. split; [exact Hw'|]. clear Hrun Hw' Ht w w' r.
  unfold tb_associateMetadata. destruct incoming as [[|kv rest]|]; try done.
  set (inc := kv :: rest). set (db := (tb_createMetadata inc tb).1).
  rewrite tb_createMetadata_version_metadata.
  set (assoc := filterVersionId versionId (version_metadata tb)).
  intros m. rewrite tb_join_metadata, tb_join_version_metadata.
  unfold tb_dissociate. rewrite tb_createMetadata_version_metadata. fold assoc.
  destruct (decide (assoc ≠ [] ∧ dissociateMetadata db assoc ≠ []))
    as [[Ha Hd]|Hnot].
  - (* joins were deleted and the orphans pruned *)
    rewrite !decide_True by done. intros Hm.
    rewrite tb_pruneOrphanedMetadata_metadata in Hm.
    apply list_elem_of_filter in Hm as [Hr _].
    rewrite tb_pruneOrphanedMetadata_version_metadata. by apply referenced_app.
  - (* nothing was deleted *)
    assert (Hsame :
      (if decide (assoc ≠ []) then
         if decide (dissociateMetadata db assoc ≠ []) then
           (tb_pruneOrphanedMetadata
              (sql_delete_version_metadata
                 (VersionMetadata.metadataId <$> dissociateMetadata db assoc)
                 versionId (tb_createMetadata inc tb).2).2).2
         else (tb_createMetadata inc tb).2
       else (tb_createMetadata inc tb).2) = (tb_createMetadata inc tb).2).
    { destruct (decide (assoc ≠ [])); [|done].
      destruct (decide (dissociateMetadata db assoc ≠ [])); [|done].
      exfalso. by apply Hnot. }
    rewrite Hsame. rewrite tb_createMetadata_version_metadata.
    rewrite tb_createMetadata_tables. simpl.
    intros [Hm|Hm]%elem_of_app.
    + apply referenced_app. by apply Hno.
    + (* a row just inserted: it is joined now *)
      pose proof (number_rows_ids _ _ _ Hm) as Hid.
      unfold referenced. rewrite fmap_app, elem_of_app. right.
      apply list_elem_of_fmap.
      exists (VersionMetadata.Row versionId (Metadata.id m)
                (default SYSTEM_USER currentUserId)).
      split; [done|]. apply list_elem_of_fmap. exists m. split; [done|].
      assert (Hdb : m ∈ db).
      { subst db. rewrite tb_createMetadata_answer_split. apply elem_of_app. by right. }
      unfold newJoins. destruct (decide (assoc ≠ [])); [|done].
      apply list_elem_of_filter. split; [|done].
      intros Hin. apply list_elem_of_fmap in Hin as (vm & Heq & Hvm).
      apply list_elem_of_filter in Hvm as [_ Hvm].
      specialize (Hbelow vm Hvm). lia.
Qed.

Lemma associateMetadata_keeps_noOrphans_witness :
  let run := associateMetadata no_fault 7%N (Some [("a", "1"); ("c", "3")]) None None
               example_world in
  ∃ tb', target None run.2 = Some tb' ∧ noOrphans tb'.
Proof.
  intros run.
  apply (associateMetadata_keeps_noOrphans no_fault 7%N (Some [("a", "1"); ("c", "3")])
           None None example_world [VersionMetadata.Row 7%N 3 0%N] run.2 example_tables).
  - vm_compute. reflexivity.
  - reflexivity.
  - intros m Hm. vm_compute in Hm.
    repeat (apply elem_of_cons in Hm as [->|Hm];
            [unfold referenced; simpl; rewrite !elem_of_cons; tauto|]).
    by apply elem_of_nil in Hm.
  - intros vm Hvm. vm_compute in Hvm.
    repeat (apply elem_of_cons in Hvm as [->|Hvm]; [simpl; lia|]).
    by apply elem_of_nil in Hvm.
Defined.

(** ** [fetchMetadataForObject] and [fetchMetadataForVersion] *)

Lemma map_throwing_Ok {X Y} (f : X → Result Y) xs :
  (∀ x, x ∈ xs → ∃ y, f x = Ok y) →
  ∃ ys, map_throwing f xs = Ok ys ∧ Forall2 (λ x y, f x = Ok y) xs ys.
Proof.
  induction xs as [|x xs IH]; intros Hall; simpl.
  { exists []. split; [done | constructor]. }
  destruct (Hall x) as [y Hy]; [left|]. rewrite Hy.
  destruct IH as (ys & -> & Hys); [intros z Hz; apply Hall; by right|].
  exists (y :: ys). split; [done | by constructor].
Qed.

Lemma map_throwing_Ok_inv {X Y} (f : X → Result Y) xs ys :
  map_throwing f xs = Ok ys → Forall2 (λ x y, f x = Ok y) xs ys.
Proof.
  revert ys. induction xs as [|x xs IH]; intros ys; simpl.
  { intros [= <-]. constructor. }
  destruct (f x) as [y|e] eqn:Hy; [|done].
  destruct (map_throwing f xs) as [ys'|e]; [|done].
  intros [= <-]. constructor; [done | by apply IH].
Qed.

Lemma versionMetadata_elem filterKeyValue params tb v kv :
  kv ∈ versionMetadata filterKeyValue params tb v ↔
  ∃ vm m, vm ∈ version_metadata tb ∧ VersionMetadata.versionId vm = Version.id v ∧
          m ∈ metadata tb ∧ Metadata.id m = VersionMetadata.metadataId vm ∧
          filterKeyValue (metadataFilter params) m = true ∧
          kv = (Metadata.key m, Metadata.value m).
Proof.
  unfold versionMetadata. rewrite list_elem_of_bind. split.
  - intros (vm & Hkv & Hvm). apply list_elem_of_bind in Hkv as (m & Hkv & Hm).
    apply list_elem_of_singleton in Hkv.
    apply list_elem_of_filter in Hvm as [Hv Hvm].
    apply list_elem_of_filter in Hm as [[Hid Hf] Hm].
    by exists vm, m.
  - intros (vm & m & Hvm & Hv & Hm & Hid & Hf & ->).
    exists vm. split; [|by apply list_elem_of_filter].
    apply list_elem_of_bind. exists m. split; [by apply list_elem_of_singleton|].
    by apply list_elem_of_filter.
Qed.

Section FetchObject.
Variable orderBy : list Version.row → list Version.row.
Variable filterIds : option (list uuid) → ObjectModel.row → bool.
Variable hasPermission : option uuid → string → ObjectModel.row → bool.
Variable filterKeyValue : option (list KeyValue) → Metadata.row → bool.
Hypothesis orderBy_Permutation : ∀ rows, orderBy rows ≡ₚ rows.

Lemma currentVersion_live o versions v :
  v ∈ versions → Version.objectId v = o → Version.deleteMarker v = false →
  currentVersion orderBy o versions ≠ [].
Proof.
  intros Hv Ho Hd. rewrite currentVersion_head.
  destruct (filter (λ v, Version.objectId v = o) _) as [|x rest] eqn:Hf; [|done].
  assert (v ∈ @nil Version.row) as Hin; [|by apply elem_of_nil in Hin].
  rewrite <- Hf. by apply (candidate_iff orderBy orderBy_Permutation).
Qed.

Lemma currentVersion_single o versions :
  currentVersion orderBy o versions = []
  ∨ ∃ v, currentVersion orderBy o versions = [v] ∧ v ∈ versions ∧
         Version.objectId v = o ∧ Version.deleteMarker v = false ∧
         v ∈ filter (λ v, Version.objectId v = o)
               (orderBy (filter (λ v, Version.deleteMarker v = false) versions)).
Proof.
  rewrite currentVersion_head.
  destruct (filter (λ v, Version.objectId v = o) _) as [|v rest] eqn:Hf; [by left|].
  right. exists v. split; [done|].
  assert (Hv : v ∈ versions ∧ Version.objectId v = o ∧ Version.deleteMarker v = false).
  { apply (candidate_iff orderBy orderBy_Permutation). rewrite Hf. left. }
  destruct Hv as (? & ? & ?). repeat split; try done. left.
Qed.

End FetchObject.

(** X9. [fetchMetadataForObject] answers exactly when every object that
    passes [filterIds] and [hasPermission(userId, 'READ')] has a version
    that is not a delete marker; the answer then has one entry for each of
    these objects and for no other object.  In which order is the
    database's choice, the query having no [ORDER BY] on objects, and is
    not stated. *)
Theorem fetchMetadataForObject_answers
    orderBy filterIds hasPermission filterKeyValue params tb :
  (∀ rows, orderBy rows ≡ₚ rows) →
  let matched :=
    filter (λ o, filterIds (objId params) o = true
                 ∧ hasPermission (userId params) "READ" o = true) (object tb) in
  let live o :=
    ∃ v, v ∈ version tb ∧ Version.objectId v = ObjectModel.id o
         ∧ Version.deleteMarker v = false in
  ((∀ o, o ∈ matched → live o) ↔
   ∃ rows, fetchMetadataForObject orderBy filterIds hasPermission filterKeyValue params tb
           = Ok rows) ∧
  (∀ rows,
     fetchMetadataForObject orderBy filterIds hasPermission filterKeyValue params tb = Ok rows →
     objectId <$> rows ≡ₚ ObjectModel.id <$> matched).
Proof.
  intros Hperm matched live. unfold fetchMetadataForObject, fetchGraph. fold matched.
  split; [split|].
  - (* every matched object is live: no throw *)
    intros Hlive.
    destruct (map_throwing_Ok
      (λ row : uuid * list (Version.row * list KeyValue),
         match first_version_metadata row.2 with
         | Ok md => Ok (MkObjectMetadata row.1 md)
         | Err e => Err e
         end)
      ((λ o, (ObjectModel.id o,
              (λ v, (v, versionMetadata filterKeyValue params tb v))
                <$> currentVersion orderBy (ObjectModel.id o) (version tb))) <$> matched))
      as (ys & Hys & _); [|by exists ys].
    intros row Hrow. apply list_elem_of_fmap in Hrow as (o & -> & Ho). simpl.
    destruct (Hlive o Ho) as (v & Hv & Hoid & Hd).
    pose proof (currentVersion_live orderBy Hperm _ _ v Hv Hoid Hd) as Hne.
    destruct (currentVersion orderBy (ObjectModel.id o) (version tb)); [done|].
    simpl. eauto.
  - (* an answer: every matched object is live *)
    intros [rows Hrows] o Ho. apply map_throwing_Ok_inv in Hrows.
    assert (Hrow : (ObjectModel.id o,
                    (λ v, (v, versionMetadata filterKeyValue params tb v))
                      <$> currentVersion orderBy (ObjectModel.id o) (version tb))
                   ∈ (λ o, (ObjectModel.id o,
                            (λ v, (v, versionMetadata filterKeyValue params tb v))
                              <$> currentVersion orderBy (ObjectModel.id o) (version tb)))
                       <$> matched).
    { apply list_elem_of_fmap. by exists o. }
    apply list_elem_of_lookup in Hrow as [i Hi].
    destruct (Forall2_lookup_l _ _ _ _ _ Hrows Hi) as (y & _ & Hy). simpl in Hy.
    destruct (currentVersion_single orderBy Hperm (ObjectModel.id o) (version tb))
      as [Hnil | (v & _ & Hv & Hoid & Hd & _)].
    + rewrite Hnil in Hy. done.
    + by exists v.
  - intros rows Hrows. apply map_throwing_Ok_inv in Hrows.
    revert rows Hrows. induction matched as [|o os IH]; intros rows Hrows.
    + by apply Forall2_nil_inv_l in Hrows as ->.
    + rewrite fmap_cons in Hrows.
      apply Forall2_cons_inv_l in Hrows as (y & ys & Hy & Hys & ->). simpl in Hy.
      rewrite !fmap_cons, (IH ys Hys).
      destruct (first_version_metadata _); [|done]. by injection Hy as <-.
Qed.

Lemma fetchMetadataForObject_answers_witness :
  let only_one : option (list uuid) → ObjectModel.row → bool :=
    λ _ o, bool_decide (ObjectModel.id o = 1%N) in
  let params := MkFetchParams None None None in
  let matched :=
    filter (λ o, only_one (objId params) o = true
                 ∧ any_permission (userId params) "READ" o = true)
      (object example_catalogue) in
  let live o :=
    ∃ v, v ∈ version example_catalogue ∧ Version.objectId v = ObjectModel.id o
         ∧ Version.deleteMarker v = false in
  ((∀ o, o ∈ matched → live o) ↔
   ∃ rows, fetchMetadataForObject orderBy_scan only_one any_permission any_metadata params
             example_catalogue = Ok rows) ∧
  (∀ rows,
     fetchMetadataForObject orderBy_scan only_one any_permission any_metadata params
       example_catalogue = Ok rows →
     objectId <$> rows ≡ₚ ObjectModel.id <$> matched).
Proof.
  intros only_one params.
  apply (fetchMetadataForObject_answers orderBy_scan only_one any_permission any_metadata
           params example_catalogue).
  intros rows. apply orderBy_scan_valid.
Defined.

(** X10. What an entry of [fetchMetadataForObject] holds.  Every entry
    belongs to an object that passes the filters, and its metadata are the
    pairs of the metadata rows that are joined to one version of that
    object and pass [filterKeyValue]; that version is not a delete marker
    and none of the object's versions that are not delete markers was
    created later. *)
Theorem fetchMetadataForObject_entries
    orderBy filterIds hasPermission filterKeyValue params tb rows entry :
  (∀ rows, orderBy rows ≡ₚ rows) →
  (∀ rows, StronglySorted version_le (orderBy rows)) →
  fetchMetadataForObject orderBy filterIds hasPermission filterKeyValue params tb = Ok rows →
  entry ∈ rows →
  ∃ o v, o ∈ object tb ∧ ObjectModel.id o = objectId entry ∧
    filterIds (objId params) o = true ∧ hasPermission (userId params) "READ" o = true ∧
    v ∈ version tb ∧ Version.objectId v = ObjectModel.id o ∧ Version.deleteMarker v = false ∧
    (∀ u, u ∈ version tb → Version.objectId u = ObjectModel.id o →
          Version.deleteMarker u = false →
          (Version.createdAt u ≤ Version.createdAt v)%Z) ∧
    (∀ kv, kv ∈ objectMetadata entry ↔
       ∃ vm m, vm ∈ version_metadata tb ∧ VersionMetadata.versionId vm = Version.id v ∧
               m ∈ metadata tb ∧ Metadata.id m = VersionMetadata.metadataId vm ∧
               filterKeyValue (metadataFilter params) m = true ∧
               kv = (Metadata.key m, Metadata.value m)).
Proof.
  intros Hperm Hsorted Hrows Hentry.
  unfold fetchMetadataForObject in Hrows. apply map_throwing_Ok_inv in Hrows.
  apply list_elem_of_lookup in Hentry as [i Hi].
  destruct (Forall2_lookup_r _ _ _ _ _ Hrows Hi) as (row & Hrow & Hshape).
  apply list_elem_of_lookup_2 in Hrow. unfold fetchGraph in Hrow.
  apply list_elem_of_fmap in Hrow as (o & -> & Ho).
  apply list_elem_of_filter in Ho as [[Hids Hread] Ho]. simpl in Hshape.
  destruct (currentVersion_single orderBy Hperm (ObjectModel.id o) (version tb))
    as [Hnil | (v & Hcur & Hv & Hoid & Hd & Hcand)].
  { rewrite Hnil in Hshape. done. }
  rewrite Hcur in Hshape. simpl in Hshape. injection Hshape as <-. simpl.
  exists o, v. repeat (split; [done|]). split.
  - intros u Hu Hou Hdu.
    destruct (filter (λ v, Version.objectId v = ObjectModel.id o)
                (orderBy (filter (λ v, Version.deleteMarker v = false) (version tb))))
      as [|x rest] eqn:Hf; [by apply elem_of_nil in Hcand|].
    assert (x = v) as ->.
    { rewrite currentVersion_head, Hf in Hcur. by injection Hcur. }
    destruct (sorted_filter_head version_le (λ v, Version.objectId v = ObjectModel.id o) _ v rest
                (Hsorted _) Hf u) as [->|[Hlt|[_ Hle]]]; [| done | lia | lia | done].
    rewrite Hperm. by apply list_elem_of_filter.
  - intros kv. apply versionMetadata_elem.
Qed.

Lemma fetchMetadataForObject_entries_witness :
  let only_one : option (list uuid) → ObjectModel.row → bool :=
    λ _ o, bool_decide (ObjectModel.id o = 1%N) in
  let params := MkFetchParams None None None in
  let entry := MkObjectMetadata 1%N [] in
  ∃ o v, o ∈ object example_catalogue ∧ ObjectModel.id o = objectId entry ∧
    only_one (objId params) o = true ∧ any_permission (userId params) "READ" o = true ∧
    v ∈ version example_catalogue ∧ Version.objectId v = ObjectModel.id o ∧
    Version.deleteMarker v = false ∧
    (∀ u, u ∈ version example_catalogue → Version.objectId u = ObjectModel.id o →
          Version.deleteMarker u = false →
          (Version.createdAt u ≤ Version.createdAt v)%Z) ∧
    (∀ kv, kv ∈ objectMetadata entry ↔
       ∃ vm m, vm ∈ version_metadata example_catalogue ∧
               VersionMetadata.versionId vm = Version.id v ∧
               m ∈ metadata example_catalogue ∧
               Metadata.id m = VersionMetadata.metadataId vm ∧
               any_metadata (metadataFilter params) m = true ∧
               kv = (Metadata.key m, Metadata.value m)).
Proof.
  intros only_one params entry.
  apply (fetchMetadataForObject_entries orderBy_scan only_one any_permission any_metadata
           params example_catalogue [entry] entry).
  - intros rows. apply orderBy_scan_valid.
  - intros rows. apply orderBy_scan_valid.
  - vm_compute. reflexivity.
  - left.
Defined.

#[global] Instance newer_first_total : Total newer_first.
Proof. intros a b. unfold newer_first. lia. Qed.

#[global] Instance newer_first_trans : Transitive newer_first.
Proof. intros a b c. unfold newer_first. lia. Qed.




(** ** The application *)

Section AppExtra.
Import App.

Lemma requestShutdown_fields s :
  shutdown (requestShutdown s) = shutdown s ∧ ready (requestShutdown s) = ready s ∧
  connections (requestShutdown s) = connections s ∧
  exitCode (requestShutdown s) = exitCode s ∧
  probing (requestShutdown s) = probing s ∧
  probesInFlight (requestShutdown s) = probesInFlight s ∧
  initInFlight (requestShutdown s) = initInFlight s ∧
  (shutdown s = false → cleanupTimers (requestShutdown s) = S (cleanupTimers s)).
Proof. unfold requestShutdown. destruct (shutdown s) eqn:E; simpl; repeat split; done. Qed.

Lemma step_shutdown e s : shutdown s = true → shutdown (step e s) = true.
Proof.
  intros Hs. destruct e; simpl; unfold requestShutdown;
    repeat (case_match; simpl; try done).
Qed.

Lemma run_snoc events e s : run (events ++ [e]) s = step e (run events s).
Proof. unfold run. by rewrite foldl_app. Qed.

(** X12. Once the application is shutting down it stays so: whatever
    happens afterwards, timers, signals, probe and initialisation results
    in any order, no request reaches a router.  A request that the
    middleware before the guard pass on is answered with the 503 [Server is
    shutting down]; one that a middleware answers itself or fails on gets
    that answer or the error handler's, as at any other time. *)
Theorem shutdown_is_final
    (Request R : Type) runEarly baseRoute (v1Router : Request → Outcome R) originalUrl
    events c s req :
  shutdown s = true →
  shutdown (run events s) = true ∧
  handle Request R runEarly baseRoute v1Router originalUrl c (run events s) req
  = match beforeGuard Request R runEarly c req with
    | Next _ => Problem 503 None [("details", "Server is shutting down")]
    | Ends m r => FromMiddleware m r
    | Fails err => errorHandler R err
    end.
Proof.
  intros Hs.
  assert (H : shutdown (run events s) = true).
  { induction events as [|e events IH] using rev_ind; [done|].
    rewrite run_snoc. by apply step_shutdown. }
  split; [done|]. unfold handle, fromGuard. rewrite H.
  by destruct (beforeGuard _ _ _ _ _).
Qed.

Lemma shutdown_is_final_witness :
  let s := step CleanupTimer (step Signal (boot (MkConfig true false false))) in
  let events := [InitResolves true; ProbeTick; ProbeResolves true; Signal] in
  shutdown (run events s) = true ∧
  handle unit unit (λ _ req, Next req) (λ _, true) (λ _, PassesOn) (λ _, "/")
    (MkConfig true false false) (run events s) ()
  = Problem 503 None [("details", "Server is shutting down")].
Proof.
  intros s events.
  apply (shutdown_is_final unit unit (λ _ req, Next req) (λ _, true) (λ _, PassesOn)
           (λ _, "/") events (MkConfig true false false) s ()).
  reflexivity.
Defined.

(** X13. The readiness guard and the base route.  A request that the
    middleware before the guard pass on reaches the routers only while the
    application is ready and not shutting down; otherwise it is answered
    503, [Server is shutting down] taking precedence over [Server is not
    ready].  So such a request to the base route is answered with the
    directory or one of the two 503s, and the error the base handler throws
    when shutting down never reaches a client. *)
Theorem base_route_answers
    (Request R : Type) runEarly baseRoute (v1Router : Request → Outcome R) originalUrl
    c s req req' :
  beforeGuard Request R runEarly c req = Next req' →
  baseRoute req' = true →
  handle Request R runEarly baseRoute v1Router originalUrl c s req
  = (if shutdown s then Problem 503 None [("details", "Server is shutting down")]
     else if ready s then Directory
     else Problem 503 None [("details", "Server is not ready")])
  ∧ handle Request R runEarly baseRoute v1Router originalUrl c s req
    ≠ errorHandler R (ThrownError "Server shutting down").
Proof.
  intros Hpass Hbase. unfold handle, fromGuard, baseHandler. rewrite Hpass, Hbase.
  destruct (shutdown s) eqn:Hs; [by split|].
  destruct (ready s); simpl; by split.
Qed.

Lemma base_route_answers_witness :
  let s := step (InitResolves true) (boot (MkConfig true false false)) in
  handle unit unit (λ _ req, Next req) (λ _, true) (λ _, PassesOn) (λ _, "/")
    (MkConfig true false false) s ()
  = (if shutdown s then Problem 503 None [("details", "Server is shutting down")]
     else if ready s then Directory
     else Problem 503 None [("details", "Server is not ready")])
  ∧ handle unit unit (λ _ req, Next req) (λ _, true) (λ _, PassesOn) (λ _, "/")
      (MkConfig true false false) s ()
    ≠ errorHandler unit (ThrownError "Server shutting down").
Proof.
  intros s.
  apply (base_route_answers unit unit (λ _ req, Next req) (λ _, true) (λ _, PassesOn)
           (λ _, "/") (MkConfig true false false) s () ()); reflexivity.
Defined.

Lemma boot_facts c : reachable_facts (boot c).
Proof.
  unfold reachable_facts, boot.
  destruct (oidc c && negb (hasDb c)); simpl; split; try done; auto.
Qed.

Lemma everyConnection_up c : everyConnection c = true → c ≠ Some false.
Proof. by destruct c as [[]|]. Qed.

Lemma requestShutdown_facts s :
  exitCode s = Some 1 → (ready s = true → connections s ≠ Some false) →
  reachable_facts (requestShutdown s).
Proof.
  intros _ Hready. unfold reachable_facts, requestShutdown.
  destruct (shutdown s) eqn:Hs; simpl; [by auto|]. split; [intros _; right; lia | done].
Qed.

Lemma step_facts e s : reachable_facts s → reachable_facts (step e s).
Proof.
  intros [Hexit Hready]. destruct e; simpl.
  - unfold reachable_facts, requestShutdown.
    destruct (shutdown s) eqn:Hs; simpl; [by split; [left|]|].
    split; [intros _; right; lia | done].
  - destruct (cleanupTimers s) eqn:Ht; [by split; [intros [?|?]%Hexit; [left | lia]|]|].
    split; simpl; [by left | done].
  - destruct (initInFlight s); [|done]. split; simpl; [done|].
    by destruct data.
  - destruct (initInFlight s); [|done]. destruct (ready s) eqn:Hr.
    + split; simpl; [done|]. apply everyConnection_up.
    + destruct (requestShutdown_facts (setExitCode s)) as [Hexit' _];
        [done | by simpl; rewrite Hr |].
      split; simpl; [|apply everyConnection_up].
      revert Hexit'. unfold requestShutdown. simpl. by destruct (shutdown s).
  - destruct (probing s && negb (shutdown s)); done.
  - destruct (probesInFlight s); [done|]. destruct data; simpl; [done|].
    by apply requestShutdown_facts.
  - destruct (probesInFlight s); done.
Qed.

(** X14. From the start on and whatever happens: the exit code is set to 1
    only together with a shutdown, so that the application is then shutting
    down or has a cleanup timer pending; and the application is never
    ready while its data connection is known to be down. *)
Theorem failure_leads_to_shutdown c events :
  let s := run events (boot c) in
  (exitCode s = Some 1 → shutdown s = true ∨ 0 < cleanupTimers s) ∧
  (ready s = true → connections s ≠ Some false).
Proof.
  induction events as [|e events IH] using rev_ind.
  - apply boot_facts.
  - cbv zeta. rewrite run_snoc. by apply step_facts.
Qed.

Lemma failure_leads_to_shutdown_witness :
  let s := App.run [InitResolves true; ProbeTick; ProbeResolves false]
             (boot (MkConfig true false false)) in
  exitCode s = Some 1 ∧ (shutdown s = true ∨ 0 < cleanupTimers s).
Proof.
  split; [reflexivity|].
  apply (failure_leads_to_shutdown (MkConfig true false false)
           [InitResolves true; ProbeTick; ProbeResolves false]).
  reflexivity.
Defined.

Lemma step_stuck e s : stuck s → stuck (step e s).
Proof.
  intros (Hr & Hp & Hf & Hi & He). unfold stuck.
  destruct e; simpl; unfold requestShutdown; rewrite ?Hi, ?Hp, ?Hf; simpl;
    repeat (case_match; simpl; try done); by rewrite ?Hi, ?Hp, ?Hf.
Qed.

(** X15. A first connection check that resolves to false, rather than
    rejecting, leaves an application with a database unready for good: it
    schedules no probe and requests no shutdown, so whatever happens
    afterwards the application is not ready, the exit code is not set, and
    every request that the middleware before the guard pass on is answered
    503. *)
Theorem failed_first_check_is_never_retried
    (Request R : Type) runEarly baseRoute (v1Router : Request → Outcome R) originalUrl
    c events req req' :
  hasDb c = true → testing c = false →
  beforeGuard Request R runEarly c req = Next req' →
  let s := run events (step (InitResolves false) (boot c)) in
  ready s = false ∧ exitCode s = None ∧
  ∃ text, handle Request R runEarly baseRoute v1Router originalUrl c s req
          = Problem 503 None [("details", text)].
Proof.
  intros Hdb Htest Hpass.
  assert (H0 : stuck (step (InitResolves false) (boot c))).
  { unfold boot. rewrite Hdb, Htest, andb_false_r. simpl. done. }
  assert (H : stuck (run events (step (InitResolves false) (boot c)))).
  { induction events as [|e events IH] using rev_ind; [done|].
    rewrite run_snoc. by apply step_stuck. }
  destruct H as (Hr & _ & _ & _ & He). cbv zeta.
  split; [done|]. split; [done|]. unfold handle, fromGuard. rewrite Hpass, Hr.
  destruct (shutdown _); eauto.
Qed.

Lemma failed_first_check_is_never_retried_witness :
  let s := run [ProbeTick; ProbeResolves true; InitResolves true]
             (step (InitResolves false) (boot (MkConfig true false false))) in
  ready s = false ∧ exitCode s = None ∧
  ∃ text, handle unit unit (λ _ req, Next req) (λ _, false) (λ _, Answers ()) (λ _, "/")
            (MkConfig true false false) s ()
          = Problem 503 None [("details", text)].
Proof.
  apply (failed_first_check_is_never_retried unit unit (λ _ req, Next req) (λ _, false)
           (λ _, Answers ()) (λ _, "/") (MkConfig true false false)
           [ProbeTick; ProbeResolves true; InitResolves true] () ());
    reflexivity.
Defined.

End AppExtra.

(** ** The routers *)

Section RoutesExtra.
Import Routes.

(** X16. Whatever the request and whatever the middleware do, the router
    of objects invokes a controller only after [checkAppMode] and the
    validator of that controller, in this order and before any other check;
    after [requireSomeAuth] unless the controller is [headObject] or
    [readObject]; and, for every controller of a single object, after
    [currentObject] and [hasPermission] as the last two, with READ for
    [headObject], [readObject] and [listObjectVersion], DELETE for
    [deleteObject], MANAGE for [togglePublic] and UPDATE for the others. *)
Theorem object_routes_guarded
    (Request : Type) takes run (req req' : Request) c passed :
  dispatch ObjectController Request takes run objectRouter req = Invokes c req' passed →
  (∃ rest, passed = checkAppMode :: validator c :: rest) ∧
  (requireSomeAuth ∈ passed ∨ c = headObject ∨ c = readObject) ∧
  (c ∈ [createObjects; searchObjects; fetchMetadata; fetchTags] ∨
   ∃ front p, passed = front ++ [currentObject; hasPermission p] ∧
     (p = READ ↔ c ∈ [headObject; readObject; listObjectVersion]) ∧
     (p = DELETE ↔ c = deleteObject) ∧
     (p = MANAGE ↔ c = togglePublic)).
Proof.
  unfold dispatch, objectRouter. simpl.
  destruct (run checkAppMode req) as [err|req1]; [done|].
  intros H.
  repeat match type of H with
  | context [takes ?m ?p req1] => destruct (takes m p req1); simpl in H
  end;
  repeat match type of H with
  | context [run ?m ?r] => destruct (run m r); simpl in H; [done|]
  end;
  try done; injection H as <- <- <-;
  (split; [by eexists|]);
  (split; [first [by left; apply list_elem_of_In; simpl; tauto
                 | by right; left | by right; right]|]);
  first
    [ by left; apply list_elem_of_In; simpl; tauto
    | right;
      match goal with
      | |- ∃ front p, ?l = @?r front p ∧ @?Q front p =>
          match l with
          | context [hasPermission ?q] => exists (take (length l - 2) l), q
          end
      end;
      (split; [reflexivity|]); rewrite ?list_elem_of_In; simpl; intuition congruence ].
Qed.

Lemma object_routes_guarded_witness :
  let passed := [checkAppMode; validator deleteObject; requireSomeAuth; currentObject;
                 hasPermission DELETE] in
  (∃ rest, passed = checkAppMode :: validator deleteObject :: rest) ∧
  (requireSomeAuth ∈ passed ∨ deleteObject = headObject ∨ deleteObject = readObject) ∧
  (deleteObject ∈ [createObjects; searchObjects; fetchMetadata; fetchTags] ∨
   ∃ front p, passed = front ++ [currentObject; hasPermission p] ∧
     (p = READ ↔ deleteObject ∈ [headObject; readObject; listObjectVersion]) ∧
     (p = DELETE ↔ deleteObject = deleteObject) ∧
     (p = MANAGE ↔ deleteObject = togglePublic)).
Proof.
  apply (object_routes_guarded (Method * string) example_takes example_run
           (DEL, "/:objectId") (DEL, "/:objectId")).
  reflexivity.
Defined.

(** X17. Whatever the request and whatever the middleware do, the router
    of object permissions invokes a controller only after [checkAppMode],
    [requireDb] and the validator of that controller, in this order; the
    search of permissions has no further check, and every other controller
    comes after [requireSomeAuth], [currentObject] and
    [hasPermission(Permissions.MANAGE)]. *)
Theorem permission_routes_guarded
    (Request : Type) takes run (req req' : Request) c passed :
  dispatch ObjectPermissionController Request takes run objectPermissionRouter req
  = Invokes c req' passed →
  passed = [checkAppMode; requireDb; validator c]
           ++ (if decide (c = searchPermissions) then []
               else [requireSomeAuth; currentObject; hasPermission MANAGE]).
Proof.
  unfold dispatch, objectPermissionRouter. simpl.
  destruct (run checkAppMode req) as [err|req1]; [done|].
  destruct (run requireDb req1) as [err|req2]; [done|]. simpl.
  intros H.
  repeat match type of H with
  | context [takes ?m ?p req2] => destruct (takes m p req2); simpl in H
  end;
  repeat match type of H with
  | context [run ?m ?r] => destruct (run m r); simpl in H; [done|]
  end;
  try done; by injection H as <- <- <-.
Qed.

Lemma permission_routes_guarded_witness :
  [checkAppMode; requireDb; validator addPermissions; requireSomeAuth; currentObject;
   hasPermission MANAGE]
  = [checkAppMode; requireDb; validator addPermissions]
    ++ (if decide (addPermissions = searchPermissions) then []
        else [requireSomeAuth; currentObject; hasPermission MANAGE]).
Proof.
  apply (permission_routes_guarded (Method * string) example_takes example_run
           (PUT, "/:objectId") (PUT, "/:objectId")).
  reflexivity.
Defined.

End RoutesExtra.

(** ** The reconciliation, for every input *)

(** X18. Joins do not accumulate.  For every version, every non-empty
    incoming set and every prior state: after a successful
    [associateMetadata] the metadata ids joined to the version are exactly
    the ids [createMetadata] resolved for the incoming set on the tables as
    they were, and the rows resolved carry exactly the incoming pairs.
    This holds whether the call ran in the caller's transaction or in its
    own, and whatever the database rejects.  (It is a statement of ids: a
    row just inserted may have been pruned again, see X7.) *)
Theorem associateMetadata_definitive fault versionId kv rest currentUserId etrx w r w' tb :
  associateMetadata fault versionId (Some (kv :: rest)) currentUserId etrx w = (Ok r, w') →
  target etrx w = Some tb →
  ∃ tb', target etrx w' = Some tb' ∧
    joinedMetadataIds versionId tb'
      = list_to_set (Metadata.id <$> (tb_createMetadata (kv :: rest) tb).1) ∧
    (λ m, (Metadata.key m, Metadata.value m)) <$> (tb_createMetadata (kv :: rest) tb).1
      ≡ₚ kv :: rest.
Proof.
  intros Hrun Ht.
  destruct (associateMetadata_effect _ _ _ _ _ _ _ _ _ Hrun Ht) as [_ Hw'].
  eexists. split; [exact Hw'|]. split.
  - apply tb_associateMetadata_joined.
  - apply tb_createMetadata_kv.
Qed.

Lemma associateMetadata_definitive_witness :
  let run := associateMetadata no_fault 7%N (Some [("c", "3")]) None None example_world in
  ∃ tb', target None run.2 = Some tb' ∧
    joinedMetadataIds 7%N tb'
      = list_to_set (Metadata.id <$> (tb_createMetadata [("c", "3")] example_tables).1) ∧
    (λ m, (Metadata.key m, Metadata.value m))
      <$> (tb_createMetadata [("c", "3")] example_tables).1 ≡ₚ [("c", "3")].
Proof.
  intros run.
  apply (associateMetadata_definitive no_fault 7%N ("c", "3") [] None None
           example_world [VersionMetadata.Row 7%N 3 0%N] run.2 example_tables).
  - vm_compute. reflexivity.
  - reflexivity.
Defined.

(** X19. What the guard [metadata && metadata.length] does.  With an empty
    or absent incoming set [associateMetadata] sends no statement to the
    database, in the caller's transaction or in its own: no join is
    deleted and no pruning runs; the committed tables and every open
    transaction's tables are as before, and the answer of a call that does
    not throw is the empty list. *)
Theorem associateMetadata_empty_noop fault versionId incoming currentUserId etrx w :
  incoming = None ∨ incoming = Some [] →
  let run := associateMetadata fault versionId incoming currentUserId etrx w in
  durable run.2 = durable w ∧
  (∀ t tb, open_work t w = Some tb → open_work t run.2 = Some tb) ∧
  (∃ cs, calls run.2 = calls w ++ cs ∧ ∀ t s, Query t s ∉ cs) ∧
  (∀ r, run.1 = Ok r → r = []).
Proof.
  intros Hin.
  assert (Hbody : associateMetadata fault versionId incoming currentUserId etrx
                  = withTransaction fault etrx (λ _, mret [])).
  { unfold associateMetadata. by destruct Hin as [-> | ->]. }
  rewrite Hbody. clear Hbody Hin. destruct etrx as [t|]; simpl.
  { split; [done|]. split; [done|]. split; [|by intros r [= <-]].
    exists []. split; [by rewrite app_nil_r|]. intros ?? ?%elem_of_nil. done. }
  unfold mbind, M_bind, startTransaction, try_catch, commit, rollback, throw, mret, M_ret.
  set (t := length (trxs w)).
  destruct (fault StartTransaction w); simpl.
  { split; [done|]. split; [done|]. split; [|done].
    exists [StartTransaction]. split; [done|].
    intros ?? Hq. apply list_elem_of_singleton in Hq. done. }
  assert (Hkeep : ∀ t' tb x, open_work t' w = Some tb →
            open_work t' (MkWorld (durable w) (trxs w ++ [x]) []) = Some tb).
  { intros t' tb x Ho. apply open_work_Some in Ho. apply open_work_Some. simpl.
    by apply lookup_app_l_Some. }
  assert (Ho : open_work t
                 (MkWorld (durable w) (trxs w ++ [MkTrx Open (durable w)])
                    (calls w ++ [StartTransaction])) = Some (durable w)).
  { apply open_work_Some. simpl. by apply list_lookup_middle. }
  rewrite Ho. destruct (fault (Commit t) _); simpl.
  - assert (Ho' : open_work t
                 (record_call (Commit t)
                    (MkWorld (durable w) (trxs w ++ [MkTrx Open (durable w)])
                       (calls w ++ [StartTransaction]))) = Some (durable w)) by done.
    rewrite Ho'. destruct (fault (Rollback t) _); simpl.
    + split; [done|]. split; [|split; [|done]].
      * intros t' tb Ho2. apply open_work_Some.
        apply (Hkeep _ _ (MkTrx Open (durable w))), open_work_Some in Ho2. done.
      * exists [StartTransaction; Commit t; Rollback t].
        split; [by rewrite <- !app_assoc|].
        intros ?? Hq. repeat (apply elem_of_cons in Hq as [Hq|Hq]; [done|]).
        by apply elem_of_nil in Hq.
    + split; [done|]. split; [|split; [|done]].
      * intros t' tb Ho2. apply open_work_Some. simpl.
        assert (t' < t) as Hlt.
        { apply open_work_Some in Ho2. by apply lookup_lt_Some in Ho2. }
        rewrite list_lookup_insert_ne by lia.
        apply (Hkeep _ _ (MkTrx Open (durable w))), open_work_Some in Ho2. done.
      * exists [StartTransaction; Commit t; Rollback t].
        split; [by rewrite <- !app_assoc|].
        intros ?? Hq. repeat (apply elem_of_cons in Hq as [Hq|Hq]; [done|]).
        by apply elem_of_nil in Hq.
  - split; [done|]. split; [|split; [|by intros r [= <-]]].
    + intros t' tb Ho2. apply open_work_Some. simpl.
      assert (t' < t) as Hlt.
      { apply open_work_Some in Ho2. by apply lookup_lt_Some in Ho2. }
      rewrite list_lookup_insert_ne by lia.
      apply (Hkeep _ _ (MkTrx Open (durable w))), open_work_Some in Ho2. done.
    + exists [StartTransaction; Commit t].
      split; [by rewrite <- !app_assoc|].
      intros ?? Hq. repeat (apply elem_of_cons in Hq as [Hq|Hq]; [done|]).
      by apply elem_of_nil in Hq.
Qed.

Lemma associateMetadata_empty_noop_witness :
  let run := associateMetadata no_fault 7%N (Some []) None None example_world in
  durable run.2 = durable example_world ∧
  (∀ t tb, open_work t example_world = Some tb → open_work t run.2 = Some tb) ∧
  (∃ cs, calls run.2 = calls example_world ++ cs ∧ ∀ t s, Query t s ∉ cs) ∧
  (∀ r, run.1 = Ok r → r = []).
Proof.
  apply (associateMetadata_empty_noop no_fault 7%N (Some []) None None example_world).
  right. reflexivity.
Defined.
